(** * SpiderHub / boss_crawl: the job-detail crawler

    A shallow embedding of [src/boss_crawl/boss_crawl.py] and the properties
    of its session, extraction and export pipeline.

    The crawler talks to a browser through Playwright.  The browser, the
    clock, the terminal and the file system are the environment: every call
    to them is answered by a [world], an oracle indexed by the number of
    environment calls made so far.  The program is sequential and
    deterministic, so one run sees one answer per call and any behaviour of
    the real environment on a run is some [world].  Python exceptions are
    outcomes; the state threads the call counter, the trace of calls made
    and the two handles the crawler object keeps. *)

From Stdlib Require Import NArith List Lia.
From stdpp Require Import base option list gmap strings sorting.

Set Default Proof Using "Type".
Local Open Scope N_scope.

(** ** Python strings *)

(** A Python [str] is a sequence of code points.  Dictionary keys and CSS
    selectors are literals of the source and are kept as [string]. *)
Abbreviation pystr := (list N).

Fixpoint lit (s : string) : pystr :=
  match s with
  | EmptyString => []
  | String c s' => Ascii.N_of_ascii c :: lit s'
  end.

(** [str.isspace] on one code point (CPython's [_PyUnicode_IsWhitespace]). *)
Definition is_whitespace (c : N) : bool :=
  (9 <=? c) && (c <=? 13) || (28 <=? c) && (c <=? 32)
  || (c =? 133) || (c =? 160) || (c =? 5760)
  || (8192 <=? c) && (c <=? 8202)
  || (c =? 8232) || (c =? 8233) || (c =? 8239) || (c =? 8287) || (c =? 12288).

Fixpoint lstrip (s : pystr) : pystr :=
  match s with
  | c :: s' => if is_whitespace c then lstrip s' else s
  | [] => []
  end.

Definition rstrip (s : pystr) : pystr := reverse (lstrip (reverse s)).

(** [s.strip()] *)
Definition strip (s : pystr) : pystr := rstrip (lstrip s).

(** [os.path.expanduser] of [posixpath], on a path that is [~] or begins
    with [~/]: the home directory of the user, as the environment gives it
    ([HOME], or else the entry of the password database), takes the place
    of the tilde, its trailing slashes removed; without a home directory
    the path is returned as it is, and so is a path without a leading
    tilde.  A path [~name] asks for the home of another user; it is left
    as it is, as for a user that is not known. *)
Fixpoint lstrip_slash (s : pystr) : pystr :=
  match s with
  | 47 :: s' => lstrip_slash s'
  | _ => s
  end.

(** [userhome.rstrip('/')] *)
Definition rstrip_slash (s : pystr) : pystr := reverse (lstrip_slash (reverse s)).

Definition expanduser (home : option pystr) (path : pystr) : pystr :=
  match path with
  | 126 :: rest =>
      match rest, home with
      | ([] | 47 :: _), Some userhome =>
          match rstrip_slash userhome ++ rest with
          | [] => [47]
          | expanded => expanded
          end
      | _, _ => path
      end
  | _ => path
  end.

(** The double quote character, for selectors that contain it. *)
Definition dquote : string := String (Ascii.ascii_of_nat 34) EmptyString.

(** Truth value of an [Optional[str]]: [None] and the empty string are false. *)
Definition truthy (o : option pystr) : bool :=
  match o with
  | Some (_ :: _) => true
  | _ => false
  end.

(** Decimal rendering, as [int.__str__] and the [%02d]-style fields of
    [isoformat] and [strftime] do it. *)
Definition digit (n : N) : N := 48 + n mod 10.

Fixpoint digits_fuel (fuel : nat) (n : N) (acc : pystr) : pystr :=
  match fuel with
  | O => acc
  | S f =>
      if n <? 10 then digit n :: acc
      else digits_fuel f (n / 10) (digit n :: acc)
  end.

Definition decimal (n : N) : pystr := digits_fuel (S (N.size_nat n)) n [].

Definition zero_pad (width : nat) (n : N) : pystr :=
  let d := decimal n in
  replicate (width - length d)%nat 48 ++ d.

(** ** Exceptions and outcomes *)

(** What the two kinds of handler of the source tell apart: [except:]
    catches everything, [except Exception] only the first class, and the
    entry point names [KeyboardInterrupt]. *)
Inductive exn_class := ExceptionClass | KeyboardInterruptClass | OtherBaseExceptionClass.

Record exn := Exn { exn_cls : exn_class; exn_str : pystr }.

Inductive outcome (A : Type) :=
| Return (a : A)
| Raise (e : exn).
Arguments Return {A} a.
Arguments Raise {A} e.

Definition is_Return {A} (o : outcome A) : bool :=
  match o with Return _ => true | Raise _ => false end.

(** ** The data of the run *)

(** An element handle.  Each handle the crawler obtains is read at most
    once, so a handle carries the outcome of its [text_content()]. *)
Record element := Element { text_content : outcome (option pystr) }.

(** [datetime.now()] *)
Record datetime := DateTime {
  year : N; month : N; day : N;
  hour : N; minute : N; second : N; microsecond : N }.

Definition isoformat (d : datetime) : pystr :=
  zero_pad 4 (year d) ++ lit "-" ++ zero_pad 2 (month d) ++ lit "-" ++ zero_pad 2 (day d)
  ++ lit "T" ++ zero_pad 2 (hour d) ++ lit ":" ++ zero_pad 2 (minute d) ++ lit ":"
  ++ zero_pad 2 (second d)
  ++ (if microsecond d =? 0 then [] else lit "." ++ zero_pad 6 (microsecond d)).

(** [strftime('%Y%m%d_%H%M%S')] *)
Definition strftime_stamp (d : datetime) : pystr :=
  zero_pad 4 (year d) ++ zero_pad 2 (month d) ++ zero_pad 2 (day d) ++ lit "_"
  ++ zero_pad 2 (hour d) ++ zero_pad 2 (minute d) ++ zero_pad 2 (second d).

(** The values a job dictionary holds: text fields and the tag list. *)
Inductive value :=
| VStr (s : pystr)
| VList (l : list pystr).

Global Instance value_eq_dec : EqDecision value.
Proof. solve_decision. Defined.

(** One job dictionary ([Dict[str, Any]]). *)
Abbreviation record := (gmap string value).

(** The messages of the source that the properties below refer to. *)
Inductive message :=
| MsgConfigMissing
| MsgNoJobLinks
| MsgLoggedIn
| MsgPleaseLogin
| MsgLoginOk
| MsgWaitingLogin
| MsgLoginTimeout
| MsgBrowserClosed
| MsgExtractBegin (job_url : pystr)
| MsgExtractOk (title : value)
| MsgExtractFailed (e : exn)
| MsgScreenshotSaved (path : pystr)
| MsgLandmarkTimeout
| MsgProgressItem (i total : nat) (job_url : pystr)
| MsgProgressTitle (title : value)
| MsgProgressError (err : value)
| MsgSaved (file : pystr)
| MsgSummary (success_count error_count : nat)
| MsgInterrupted
| MsgProgramError (e : exn).

(** The calls made to the environment, in the trace newest first. *)
Inductive event :=
| EvPlaywrightStart
| EvMakedirs (dir : pystr)
| EvLaunch (user_data_dir : pystr)
| EvNewPage
| EvGoto (url : pystr)
| EvSleep (seconds : nat)
| EvWaitForSelector (selector : string)
| EvQuery (selector : string) (found : bool)
| EvQueryAll (selector : string)
| EvScreenshot (path : pystr)
| EvInput
| EvNow
| EvTime
| EvOpen (dir file : pystr)
| EvWriteJson (dir file : pystr) (records : list record)
| EvWriteCsv (dir file : pystr) (header : list string) (rows : list (list value))
| EvBrowserClose
| EvPlaywrightStop
| EvSay (m : message).

(** ** The environment *)

Record world := World {
  w_driver : nat → option exn;
  w_home : option pystr;
  w_pages : nat → bool;
  w_fs : nat → pystr → option exn;
  w_goto : nat → pystr → option exn;
  w_sleep : nat → option exn;
  w_wait_for_selector : nat → string → option exn;
  w_query_selector : nat → string → outcome (option element);
  w_query_selector_all : nat → string → outcome (list element);
  w_screenshot : nat → pystr → option exn;
  w_input : nat → option exn;
  w_now : nat → datetime;
  w_time : nat → N;
  w_close : nat → option exn }.

(** ** State and the monad of the crawler *)

Record state := State {
  st_tick : nat;
  st_trace : list event;
  st_playwright : bool;
  st_browser : bool }.

Definition init_state : state := State 0 [] false false.

Definition M (A : Type) : Type := state → outcome A * state.

Global Instance M_ret : MRet M := λ A a s, (Return a, s).
Global Instance M_bind : MBind M := λ A B k m s,
  match m s with
  | (Return a, s') => k a s'
  | (Raise e, s') => (Raise e, s')
  end.

(** [try: body  except: handler], the bare form that catches everything. *)
Definition try_except {A} (body : M A) (handler : exn → M A) : M A := λ s,
  match body s with
  | (Return a, s') => (Return a, s')
  | (Raise e, s') => handler e s'
  end.

(** [try: body  except Exception as e: handler] *)
Definition try_except_Exception {A} (body : M A) (handler : exn → M A) : M A := λ s,
  match body s with
  | (Return a, s') => (Return a, s')
  | (Raise e, s') =>
      match exn_cls e with
      | ExceptionClass => handler e s'
      | _ => (Raise e, s')
      end
  end.

Definition emit (ev : event) (s : state) : state :=
  State (S (st_tick s)) (ev :: st_trace s) (st_playwright s) (st_browser s).

(** A message on the logger or on standard output: no environment answer. *)
Definition note (m : message) (s : state) : state :=
  State (st_tick s) (EvSay m :: st_trace s) (st_playwright s) (st_browser s).

Definition say (m : message) : M unit := λ s, (Return tt, note m s).

(** A call that returns nothing or raises. *)
Definition call (ev : event) (answer : nat → option exn) : M unit := λ s,
  match answer (st_tick s) with
  | None => (Return tt, emit ev s)
  | Some e => (Raise e, emit ev s)
  end.

Definition lift {A} (o : outcome A) : M A := λ s, (o, s).

Section Crawler.
Variable w : world.

Definition sleep (seconds : nat) : M unit := call (EvSleep seconds) (w_sleep w).
Definition goto (url : pystr) : M unit := call (EvGoto url) (λ t, w_goto w t url).
Definition wait_for_selector (selector : string) : M unit :=
  call (EvWaitForSelector selector) (λ t, w_wait_for_selector w t selector).
Definition screenshot (path : pystr) : M unit :=
  call (EvScreenshot path) (λ t, w_screenshot w t path).
Definition input : M unit := call EvInput (w_input w).
Definition makedirs (dir : pystr) : M unit := call (EvMakedirs dir) (λ t, w_fs w t dir).

Definition query_selector (selector : string) : M (option element) := λ s,
  let r := w_query_selector w (st_tick s) selector in
  let found := match r with Return (Some _) => true | _ => false end in
  (r, emit (EvQuery selector found) s).

Definition query_selector_all (selector : string) : M (list element) := λ s,
  (w_query_selector_all w (st_tick s) selector, emit (EvQueryAll selector) s).

Definition datetime_now : M datetime := λ s, (Return (w_now w (st_tick s)), emit EvNow s).
Definition time_time : M N := λ s, (Return (w_time w (st_tick s)), emit EvTime s).

(** *** [_extract_text] (lines 165-174) *)

(** The [try] block either returns from the function ([Some]) or falls
    through to the final return of the empty string ([None]). *)
Definition _extract_text (selector : string) : M pystr :=
  r ← try_except
        (element ← query_selector selector;
         match element with
         | Some el =>
             text ← lift (text_content el);
             mret (Some (if truthy text then strip (default [] text) else []))
         | None => mret None
         end)
        (λ _, mret None);
  mret (default [] r).

(** *** [_extract_tags] (lines 176-187) *)

(** The loop appends to [tags] in place: what was appended before a read
    raises is still in the list the function returns. *)
Fixpoint tags_loop (tag_elements : list element) (tags : list pystr)
  : list pystr * option exn :=
  match tag_elements with
  | [] => (tags, None)
  | tag_element :: rest =>
      match text_content tag_element with
      | Raise e => (tags, Some e)
      | Return tag_text =>
          if truthy tag_text && truthy (Some (strip (default [] tag_text)))
          then tags_loop rest (tags ++ [strip (default [] tag_text)])
          else tags_loop rest tags
      end
  end.

Definition _extract_tags : M (list pystr) :=
  try_except
    (tag_elements ← query_selector_all ".job-tags span";
     mret (fst (tags_loop tag_elements [])))
    (λ _, mret []).

(** *** [extract_job_details] (lines 114-163) *)

Definition screenshot_path (t : N) : pystr :=
  lit "error_screenshot_" ++ decimal t ++ lit ".png".

Definition failed_record (job_url : pystr) (e : exn) (now : datetime) : record :=
  <["url" := VStr job_url]>
    (<["error" := VStr (exn_str e)]>
       (<["extracted_at" := VStr (isoformat now)]> ∅)).

(** The dictionary literal of lines 130-142. *)
Definition job_record (job_url title salary city experience education company
    company_type company_size job_description : pystr) (now : datetime) : record :=
  <["url" := VStr job_url]>
  (<["title" := VStr title]>
  (<["salary" := VStr salary]>
  (<["city" := VStr city]>
  (<["experience" := VStr experience]>
  (<["education" := VStr education]>
  (<["company" := VStr company]>
  (<["company_type" := VStr company_type]>
  (<["company_size" := VStr company_size]>
  (<["job_description" := VStr job_description]>
  (<["extracted_at" := VStr (isoformat now)]> ∅)))))))))).

(** [if tags: job_details['tags'] = tags] *)
Definition with_tags (job_details : record) (tags : list pystr) : record :=
  match tags with
  | [] => job_details
  | _ :: _ => <["tags" := VList tags]> job_details
  end.

Definition extract_job_details (job_url : pystr) : M record :=
  say (MsgExtractBegin job_url);;
  try_except_Exception
    (goto job_url;;
     sleep 3;;
     try_except (wait_for_selector ".job-banner") (λ _, say MsgLandmarkTimeout);;
     title ← _extract_text ".name h1";
     salary ← _extract_text ".salary";
     city ← _extract_text ".text-city";
     experience ← _extract_text ".text-experience";
     education ← _extract_text ".text-degree";
     company ← _extract_text ".company-info .name";
     company_type ← _extract_text ".company-info .type";
     company_size ← _extract_text ".company-info .size";
     job_description ← _extract_text ".job-sec-text";
     now ← datetime_now;
     let job_details :=
       job_record job_url title salary city experience education company
         company_type company_size job_description now in
     tags ← _extract_tags;
     let job_details := with_tags job_details tags in
     say (MsgExtractOk (default (VStr (lit "?")) (job_details !! "title")));;
     mret job_details)
    (λ e,
     say (MsgExtractFailed e);;
     t ← time_time;
     screenshot (screenshot_path t);;
     say (MsgScreenshotSaved (screenshot_path t));;
     now ← datetime_now;
     mret (failed_record job_url e now)).

(** *** [ensure_logged_in] (lines 65-112) *)

Definition home_url : pystr := lit "https://www.zhipin.com".

Definition login_indicators : list string :=
  [ "a[href*=" +:+ dquote +:+ "/web/geek/chat" +:+ dquote +:+ "]";
    ".nav-figure img";
    "a[ka=" +:+ dquote +:+ "header-username" +:+ dquote +:+ "]" ].

(** The [for indicator in login_indicators] loop, written twice in the
    source (lines 81-89 and 99-106): true as soon as one indicator is
    found, a probe that raises counts as not found. *)
Fixpoint probe_indicators (indicators : list string) : M bool :=
  match indicators with
  | [] => mret false
  | indicator :: rest =>
      element ← try_except (query_selector indicator) (λ _, mret None);
      match element with
      | Some _ => mret true
      | None => probe_indicators rest
      end
  end.

(** [for _ in range(n)], lines 97-110 with [n = 60]. *)
Fixpoint poll_login (n : nat) : M bool :=
  match n with
  | O => (say MsgLoginTimeout;; mret false)
  | S n' =>
      sleep 5;;
      found ← probe_indicators login_indicators;
      if (found : bool) then (say MsgLoginOk;; mret true)
      else (say MsgWaitingLogin;; poll_login n')
  end.

Definition ensure_logged_in : M bool :=
  goto home_url;;
  sleep 3;;
  logged_in ← probe_indicators login_indicators;
  if (logged_in : bool) then (say MsgLoggedIn;; mret true)
  else (say MsgPleaseLogin;; input;; poll_login 60).

(** *** [start] and [close] (lines 38-63, 189-195) *)

Definition user_data_dir : pystr := expanduser (w_home w) (lit "~/boss_crawler_data").

(** [BossJobDetailCrawler(headless=False)]: a crawler without handles. *)
Definition new_crawler : M unit := λ s,
  (Return tt, State (st_tick s) (st_trace s) false false).

Definition set_playwright : M unit := λ s,
  (Return tt, State (st_tick s) (st_trace s) true (st_browser s)).
Definition set_browser : M unit := λ s,
  (Return tt, State (st_tick s) (st_trace s) (st_playwright s) true).

(** [self.browser.pages], read as a truth value: whether the context
    that was launched has a page already. *)
Definition pages : M bool := λ s, (Return (w_pages w (st_tick s)), s).

Definition start : M unit :=
  call EvPlaywrightStart (w_driver w);;
  set_playwright;;
  makedirs user_data_dir;;
  call (EvLaunch user_data_dir) (w_driver w);;
  set_browser;;
  has_page ← pages;
  if (has_page : bool) then mret tt else call EvNewPage (w_driver w).

Definition close : M unit :=
  (λ s, (if st_browser s then call EvBrowserClose (w_close w) else mret tt) s);;
  (λ s, (if st_playwright s then call EvPlaywrightStop (w_close w) else mret tt) s);;
  say MsgBrowserClosed.

End Crawler.

(** ** The result writer (lines 253-280) *)

(** [sorted(fieldnames)] after the [fieldnames.update(job.keys())] loop.
    The keys are the ASCII literals of the source, on which the order of
    [String.le] is the order of Python on [str]. *)
Definition fieldnames_of (all_job_details : list record) : list string :=
  merge_sort String.le
    (elements (foldl (λ (acc : gset string) (job : record), acc ∪ dom job) ∅ all_job_details)).

(** [csv.DictWriter._dict_to_list] with the defaults [restval=''] and
    [extrasaction='raise']. *)
Definition dict_to_list (fieldnames : list string) (rowdict : record) : outcome (list value) :=
  if decide (dom rowdict ⊆ list_to_set fieldnames)
  then Return ((λ key, default (VStr []) (rowdict !! key)) <$> fieldnames)
  else Raise (Exn ExceptionClass (lit "dict contains fields not in fieldnames")).

Fixpoint write_rows (fieldnames : list string) (jobs : list record)
  : outcome (list (list value)) :=
  match jobs with
  | [] => Return []
  | job :: rest =>
      match dict_to_list fieldnames job with
      | Raise e => Raise e
      | Return row =>
          match write_rows fieldnames rest with
          | Raise e => Raise e
          | Return rows => Return (row :: rows)
          end
      end
  end.

(** [str.lower] on the bytes of an ASCII string; no character outside ASCII
    lowers to a letter of "json" or "csv". *)
Definition lower_ascii (c : Ascii.ascii) : Ascii.ascii :=
  let n := Ascii.nat_of_ascii c in
  if Nat.leb 65 n && Nat.leb n 90 then Ascii.ascii_of_nat (n + 32) else c.

Fixpoint lower (s : string) : string :=
  match s with
  | EmptyString => EmptyString
  | String c s' => String (lower_ascii c) (lower s')
  end.

(** The parsed configuration, defaults of [config.get] applied. *)
Record config := Config {
  job_links : list pystr;
  output_dir : pystr;
  output_format : string }.

Definition has_key (k : string) (job : record) : bool := bool_decide (is_Some (job !! k)).

(** [sum(1 for job in all_job_details if 'error' not in job)] *)
Definition success_count (all_job_details : list record) : nat :=
  length (filter (λ job, has_key "error" job = false) all_job_details).

Section Run.
Variable w : world.

(** The [for i, job_url in enumerate(job_links, 1)] loop (lines 237-251). *)
Fixpoint main_loop (total i : nat) (links : list pystr) (all_job_details : list record)
  : M (list record) :=
  match links with
  | [] => mret all_job_details
  | job_url :: rest =>
      say (MsgProgressItem i total job_url);;
      job_details ← extract_job_details w job_url;
      let all_job_details := all_job_details ++ [job_details] in
      match job_details !! "title" with
      | Some v => say (MsgProgressTitle v)
      | None => mret tt
      end;;
      match job_details !! "error" with
      | Some v => say (MsgProgressError v)
      | None => mret tt
      end;;
      sleep w 2;;
      main_loop total (S i) rest all_job_details
  end.

Definition save_results (cfg : config) (all_job_details : list record) : M unit :=
  now ← datetime_now w;
  let timestamp := strftime_stamp now in
  let fmt := lower (output_format cfg) in
  if decide (fmt = "json") then
    let file := lit "job_details_" ++ timestamp ++ lit ".json" in
    call (EvOpen (output_dir cfg) file) (λ t, w_fs w t file);;
    call (EvWriteJson (output_dir cfg) file all_job_details) (λ t, w_fs w t file);;
    say (MsgSaved file)
  else if decide (fmt = "csv") then
    let file := lit "job_details_" ++ timestamp ++ lit ".csv" in
    let fieldnames := fieldnames_of all_job_details in
    call (EvOpen (output_dir cfg) file) (λ t, w_fs w t file);;
    rows ← lift (write_rows fieldnames all_job_details);
    call (EvWriteCsv (output_dir cfg) file fieldnames rows) (λ t, w_fs w t file);;
    say (MsgSaved file)
  else mret tt.

(** [main] (lines 198-290); [None] is the missing configuration file. *)
Definition main (cfg : option config) : M unit :=
  match cfg with
  | None => say MsgConfigMissing
  | Some config =>
      match job_links config with
      | [] => say MsgNoJobLinks
      | _ :: _ =>
          makedirs w (output_dir config);;
          new_crawler;;
          start w;;
          logged_in ← ensure_logged_in w;
          if negb (logged_in : bool) then close w
          else
            all_job_details ← main_loop (length (job_links config)) 1 (job_links config) [];
            save_results config all_job_details;;
            say (MsgSummary (success_count all_job_details)
                   (length all_job_details - success_count all_job_details));;
            close w
      end
  end.

(** The [__main__] block (lines 293-299). *)
Definition program (cfg : option config) : M unit := λ s,
  match main cfg s with
  | (Return tt, s') => (Return tt, s')
  | (Raise e, s') =>
      match exn_cls e with
      | KeyboardInterruptClass => say MsgInterrupted s'
      | ExceptionClass => say (MsgProgramError e) s'
      | OtherBaseExceptionClass => (Raise e, s')
      end
  end.

End Run.

(** ** Reading a trace *)

Definition is_launch (ev : event) : bool :=
  match ev with EvLaunch _ => true | _ => false end.
Definition is_close (ev : event) : bool :=
  match ev with EvBrowserClose => true | _ => false end.
Definition is_write (ev : event) : bool :=
  match ev with EvOpen _ _ | EvWriteJson _ _ _ | EvWriteCsv _ _ _ _ => true | _ => false end.
Definition is_summary (ev : event) : bool :=
  match ev with EvSay (MsgSummary _ _) => true | _ => false end.
(** A probe of a login indicator that found its element. *)
Definition is_match (ev : event) : bool :=
  match ev with EvQuery _ true => true | _ => false end.
(** The "login timed out" error of line 109. *)
Definition is_timeout (ev : event) : bool :=
  match ev with EvSay MsgLoginTimeout => true | _ => false end.
(** One round of the polling wait: its five-second sleep. *)
Definition is_poll (ev : event) : bool :=
  match ev with EvSleep 5 => true | _ => false end.

(** The row of [job] under the header [fieldnames]: the value of each
    field the record has, the empty string for each it has not. *)
Definition row_of (fieldnames : list string) (job : record) : list value :=
  (λ key, default (VStr []) (job !! key)) <$> fieldnames.

(** The name of the CSV file when the clock is read at call [t]. *)
Definition csv_file (w : world) (t : nat) : pystr :=
  lit "job_details_" ++ strftime_stamp (w_now w t) ++ lit ".csv".

(** The links whose extraction was begun, first to last. *)
Definition begun (s : state) : list pystr :=
  omap (λ ev, match ev with EvSay (MsgExtractBegin job_url) => Some job_url | _ => None end)
       (reverse (st_trace s)).

(** The state in which the handler of [extract_job_details] leaves the
    run when the attempt raised [e] and the screenshot was asked for. *)
Definition after_screenshot (w : world) (s0 : state) : state :=
  emit (EvScreenshot (screenshot_path (w_time w (st_tick s0)))) (emit EvTime s0).

(** The rounds of the polling wait that a list of events holds. *)
Definition polls (evs : list event) : nat := length (List.filter is_poll evs).


(** [m] only adds events that satisfy [P] to the trace, and leaves the
    handles of the crawler as they are. *)
Definition emits_only {A} (P : event → Prop) (m : M A) : Prop :=
  ∀ s, ∃ evs, st_trace (m s).2 = evs ++ st_trace s
              ∧ Forall P evs
              ∧ st_browser (m s).2 = st_browser s
              ∧ st_playwright (m s).2 = st_playwright s.

Definition login_event (ev : event) : bool :=
  match ev with
  | EvGoto _ | EvSleep _ | EvQuery _ _ | EvInput => true
  | EvSay (MsgLoggedIn | MsgPleaseLogin | MsgLoginOk | MsgWaitingLogin | MsgLoginTimeout) => true
  | _ => false
  end.

Definition extract_event (ev : event) : bool :=
  match ev with
  | EvGoto _ | EvSleep _ | EvWaitForSelector _ | EvQuery _ _ | EvQueryAll _
  | EvScreenshot _ | EvNow | EvTime => true
  | EvSay (MsgExtractBegin _ | MsgExtractOk _ | MsgExtractFailed _
          | MsgScreenshotSaved _ | MsgLandmarkTimeout) => true
  | EvSay (MsgProgressItem _ _ _ | MsgProgressTitle _ | MsgProgressError _) => true
  | _ => false
  end.

Definition start_event (ev : event) : bool :=
  match ev with
  | EvPlaywrightStart | EvMakedirs _ | EvLaunch _ | EvNewPage => true
  | _ => false
  end.

Definition close_event (ev : event) : bool :=
  match ev with
  | EvBrowserClose | EvPlaywrightStop | EvSay MsgBrowserClosed => true
  | _ => false
  end.

Definition save_event (ev : event) : bool :=
  match ev with
  | EvNow | EvOpen _ _ | EvWriteJson _ _ _ | EvWriteCsv _ _ _ _ | EvSay (MsgSaved _) => true
  | _ => false
  end.

(** ** What the environment holds *)

(** The text behind [selector] when the query is answered at call [t]:
    the stripped text of the element found, empty when there is none
    or a read fails. *)
Definition field_text (w : world) (t : nat) (selector : string) : pystr :=
  match w_query_selector w t selector with
  | Return (Some el) =>
      match text_content el with
      | Return (Some text) => strip text
      | _ => []
      end
  | _ => []
  end.

Definition query_found (w : world) (t : nat) (selector : string) : bool :=
  match w_query_selector w t selector with
  | Return (Some _) => true
  | _ => false
  end.

(** [v] is [text] without its surrounding whitespace. *)
Definition trimmed_of (text v : pystr) : Prop :=
  ∃ l r, text = l ++ v ++ r
         ∧ Forall (λ c, is_whitespace c = true) l
         ∧ Forall (λ c, is_whitespace c = true) r
         ∧ (∀ c, head v = Some c → is_whitespace c = false)
         ∧ (∀ c, last v = Some c → is_whitespace c = false).

(** The text of a tag element that was read: [None] reads as empty. *)
Definition element_text (el : element) : pystr :=
  match text_content el with
  | Return (Some text) => text
  | _ => []
  end.

Definition readable (el : element) : Prop := is_Return (text_content el) = true.

(** The elements in front of the first one whose read raises. *)
Fixpoint readable_prefix (els : list element) : list element :=
  match els with
  | [] => []
  | el :: rest => if is_Return (text_content el) then el :: readable_prefix rest else []
  end.

(** The tags [_extract_tags] yields when the query is answered at call [t]. *)
Definition page_tags (w : world) (t : nat) : list pystr :=
  match w_query_selector_all w t ".job-tags span" with
  | Return tag_elements => (tags_loop tag_elements []).1
  | Raise _ => []
  end.

(** The record of a page that was reached, the extraction starting at
    call [t]: navigation, settling and the landmark wait take three calls,
    the nine fields one each, then the clock and the tag query. *)
Definition scraped_record (w : world) (t : nat) (job_url : pystr) : record :=
  with_tags
    (job_record job_url
       (field_text w (3 + t) ".name h1")
       (field_text w (4 + t) ".salary")
       (field_text w (5 + t) ".text-city")
       (field_text w (6 + t) ".text-experience")
       (field_text w (7 + t) ".text-degree")
       (field_text w (8 + t) ".company-info .name")
       (field_text w (9 + t) ".company-info .type")
       (field_text w (10 + t) ".company-info .size")
       (field_text w (11 + t) ".job-sec-text")
       (w_now w (12 + t)))
    (page_tags w (13 + t)).

(** The error that ends the attempt started at call [t], if any, with the
    number of the call after it: only navigation and the settling sleep can
    raise out of the [try] block. *)
Definition extraction_error (w : world) (t : nat) (job_url : pystr) : option (exn * nat) :=
  match w_goto w t job_url with
  | Some e => Some (e, S t)
  | None =>
      match w_sleep w (S t) with
      | Some e => Some (e, S (S t))
      | None => None
      end
  end.

(** What [extract_job_details] comes to when it starts at call [t]. *)
Definition extraction_outcome (w : world) (t : nat) (job_url : pystr) : outcome record :=
  match extraction_error w t job_url with
  | None => Return (scraped_record w t job_url)
  | Some (e, t') =>
      match exn_cls e with
      | ExceptionClass =>
          match w_screenshot w (S t') (screenshot_path (w_time w t')) with
          | None => Return (failed_record job_url e (w_now w (S (S t'))))
          | Some e' => Raise e'
          end
      | _ => Raise e
      end
  end.

(** The nine text fields: key, selector, and the call of the extraction
    at which the selector is queried. *)
Definition content_fields : list (string * string * nat) :=
  [ ("title", ".name h1", 3%nat);
    ("salary", ".salary", 4%nat);
    ("city", ".text-city", 5%nat);
    ("experience", ".text-experience", 6%nat);
    ("education", ".text-degree", 7%nat);
    ("company", ".company-info .name", 8%nat);
    ("company_type", ".company-info .type", 9%nat);
    ("company_size", ".company-info .size", 10%nat);
    ("job_description", ".job-sec-text", 11%nat) ].

(** ** Example environments *)

Definition elem (text : string) : element := Element (Return (Some (lit text))).

Definition at_noon (t : nat) : datetime := DateTime 2024 5 17 12 0 (N.of_nat t) 0.

(** Logged in already; every field present, four tag elements of which one
    is blank and two are equal. *)
Definition world_healthy : world := {|
  w_driver := λ _, None;
  w_home := Some (lit "/home/crawler");
  w_pages := λ _, true;
  w_fs := λ _ _, None;
  w_goto := λ _ _, None;
  w_sleep := λ _, None;
  w_wait_for_selector := λ _ _, None;
  w_query_selector := λ _ selector, Return (Some (elem "  Rocq engineer "));
  w_query_selector_all := λ _ _, Return [elem " remote "; elem "   "; elem "proofs"; elem "remote"];
  w_screenshot := λ _ _, None;
  w_input := λ _, None;
  w_now := at_noon;
  w_time := λ _, 1715947200;
  w_close := λ _, None |}.

(** The page behind [bad_url] is gone: navigating to it raises and so does
    the screenshot taken while handling that. *)
Definition bad_url : pystr := lit "https://www.zhipin.com/job_detail/gone.html".
Definition navigation_error : exn := Exn ExceptionClass (lit "net::ERR_ABORTED").
Definition screenshot_error : exn := Exn ExceptionClass (lit "Target page has been closed").

Definition world_crash : world := {|
  w_driver := λ _, None;
  w_home := Some (lit "/home/crawler");
  w_pages := λ _, false;
  w_fs := λ _ _, None;
  w_goto := λ _ url, if decide (url = bad_url) then Some navigation_error else None;
  w_sleep := λ _, None;
  w_wait_for_selector := λ _ _, None;
  w_query_selector := λ _ selector, Return (Some (elem "  Rocq engineer "));
  w_query_selector_all := λ _ _, Return [];
  w_screenshot := λ _ _, Some screenshot_error;
  w_input := λ _, None;
  w_now := at_noon;
  w_time := λ _, 1715947200;
  w_close := λ _, None |}.

(** Nobody ever logs in; nothing raises. *)
Definition world_logged_out : world := {|
  w_driver := λ _, None;
  w_home := Some (lit "/home/crawler");
  w_pages := λ _, false;
  w_fs := λ _ _, None;
  w_goto := λ _ _, None;
  w_sleep := λ _, None;
  w_wait_for_selector := λ _ _, None;
  w_query_selector := λ _ _, Return None;
  w_query_selector_all := λ _ _, Return [];
  w_screenshot := λ _ _, None;
  w_input := λ _, None;
  w_now := at_noon;
  w_time := λ _, 1715947200;
  w_close := λ _, None |}.

(** Navigation raises an error that has no message. *)
Definition world_silent_error : world := {|
  w_driver := λ _, None;
  w_home := Some (lit "/home/crawler");
  w_pages := λ _, false;
  w_fs := λ _ _, None;
  w_goto := λ _ _, Some (Exn ExceptionClass []);
  w_sleep := λ _, None;
  w_wait_for_selector := λ _ _, None;
  w_query_selector := λ _ _, Return None;
  w_query_selector_all := λ _ _, Return [];
  w_screenshot := λ _ _, None;
  w_input := λ _, None;
  w_now := at_noon;
  w_time := λ _, 1715947200;
  w_close := λ _, None |}.

(** The output directory cannot be written: opening the result file fails. *)
Fixpoint starts_with (prefix s : pystr) : bool :=
  match prefix, s with
  | [], _ => true
  | c :: prefix', d :: s' => (c =? d) && starts_with prefix' s'
  | _ :: _, [] => false
  end.

Definition permission_error : exn := Exn ExceptionClass (lit "[Errno 13] Permission denied").

Definition world_read_only : world := {|
  w_driver := λ _, None;
  w_home := Some (lit "/home/crawler");
  w_pages := λ _, false;
  w_fs := λ _ path,
    if starts_with (lit "job_details_") path then Some permission_error else None;
  w_goto := λ _ _, None;
  w_sleep := λ _, None;
  w_wait_for_selector := λ _ _, None;
  w_query_selector := λ _ selector, Return (Some (elem "  Rocq engineer "));
  w_query_selector_all := λ _ _, Return [];
  w_screenshot := λ _ _, None;
  w_input := λ _, None;
  w_now := at_noon;
  w_time := λ _, 1715947200;
  w_close := λ _, None |}.

(** The operator interrupts the run during the pause after the first link. *)
Definition keyboard_interrupt : exn := Exn KeyboardInterruptClass [].

Definition world_interrupted : world := {|
  w_driver := λ _, None;
  w_home := Some (lit "/home/crawler");
  w_pages := λ _, false;
  w_fs := λ _ _, None;
  w_goto := λ _ _, None;
  w_sleep := λ t, if decide (20 ≤ t)%nat then Some keyboard_interrupt else None;
  w_wait_for_selector := λ _ _, None;
  w_query_selector := λ _ selector, Return (Some (elem "  Rocq engineer "));
  w_query_selector_all := λ _ _, Return [];
  w_screenshot := λ _ _, None;
  w_input := λ _, None;
  w_now := at_noon;
  w_time := λ _, 1715947200;
  w_close := λ _, None |}.

Definition url1 : pystr := lit "https://www.zhipin.com/job_detail/1.html".
Definition url3 : pystr := lit "https://www.zhipin.com/job_detail/3.html".

(** A record of a page that was read and one of a page that was not. *)
Definition two_records : list record :=
  [ scraped_record world_healthy 0 url1;
    failed_record bad_url navigation_error (at_noon 40) ].

Definition empty_config : config := Config [] (lit "./job_details") "json".

Definition one_link : config := Config [url1] (lit "./job_details") "json".
Definition three_links : config := Config [url1; bad_url; url3] (lit "./job_details") "json".

(** ** Further readings of a trace and of the data *)

(** The number of events of a kind in a list of events. *)
Definition count_events (p : event → bool) (evs : list event) : nat :=
  length (List.filter p evs).

Definition is_screenshot (ev : event) : bool :=
  match ev with EvScreenshot _ => true | _ => false end.

(** The value of a string of decimal digits. *)
Definition undecimal (s : pystr) : N := foldl (λ acc c, 10 * acc + (c - 48)) 0 s.

(** The eleven keys of the dictionary literal of lines 130-142. *)
Definition literal_keys : list string :=
  ["url"; "title"; "salary"; "city"; "experience"; "education"; "company";
   "company_type"; "company_size"; "job_description"; "extracted_at"].

(** Whether the attempt started at call [t] ends in the handler of
    [extract_job_details]: with an error of class [Exception]. *)
Definition attempt_failed (w : world) (t : nat) (job_url : pystr) : bool :=
  match extraction_error w t job_url with
  | Some (e, _) => match exn_cls e with ExceptionClass => true | _ => false end
  | None => false
  end.

(** Navigation works, but the page cannot be read: the landmark wait and
    every query raise. *)
Definition dom_error : exn := Exn ExceptionClass (lit "Execution context was destroyed").

Definition world_unreadable : world := {|
  w_driver := λ _, None;
  w_home := Some (lit "/home/crawler");
  w_pages := λ _, false;
  w_fs := λ _ _, None;
  w_goto := λ _ _, None;
  w_sleep := λ _, None;
  w_wait_for_selector := λ _ _, Some dom_error;
  w_query_selector := λ _ _, Raise dom_error;
  w_query_selector_all := λ _ _, Raise dom_error;
  w_screenshot := λ _ _, None;
  w_input := λ _, None;
  w_now := at_noon;
  w_time := λ _, 1715947200;
  w_close := λ _, None |}.

(** The second of three tag elements cannot be read. *)
Definition world_torn_tags : world := {|
  w_driver := λ _, None;
  w_home := Some (lit "/home/crawler");
  w_pages := λ _, true;
  w_fs := λ _ _, None;
  w_goto := λ _ _, None;
  w_sleep := λ _, None;
  w_wait_for_selector := λ _ _, None;
  w_query_selector := λ _ selector, Return (Some (elem "  Rocq engineer "));
  w_query_selector_all := λ _ _, Return [elem " a "; Element (Raise dom_error); elem "b"];
  w_screenshot := λ _ _, None;
  w_input := λ _, None;
  w_now := at_noon;
  w_time := λ _, 1715947200;
  w_close := λ _, None |}.

Definition is_probe (ev : event) : bool :=
  match ev with EvQuery _ _ => true | _ => false end.
Definition is_prompt (ev : event) : bool :=
  match ev with EvInput => true | _ => false end.

(** The seconds of sleep asked for in a list of events. *)
Fixpoint slept (evs : list event) : nat :=
  match evs with
  | [] => 0
  | EvSleep seconds :: rest => seconds + slept rest
  | _ :: rest => slept rest
  end.

(** What a list of login events costs: probes, polling rounds, prompts
    and seconds of sleep. *)
Definition within (evs : list event) (probes rounds prompts seconds : nat) : Prop :=
  (count_events is_probe evs ≤ probes)%nat
  ∧ (count_events is_poll evs ≤ rounds)%nat
  ∧ (count_events is_prompt evs ≤ prompts)%nat
  ∧ (slept evs ≤ seconds)%nat.

(** An event that navigates goes to one of the [allowed] addresses. *)
Definition visits (allowed : list pystr) (ev : event) : Prop :=
  match ev with
  | EvGoto url => url ∈ allowed
  | _ => True
  end.

(** The calls of a [start] begun at call [t] that went through, newest
    first: a page is opened only when the launched context has none. *)
Definition started_events (w : world) (t : nat) : list event :=
  (if w_pages w (3 + t) then [] else [EvNewPage])
  ++ [EvLaunch (user_data_dir w); EvMakedirs (user_data_dir w); EvPlaywrightStart].

(** What [save_results] may add to the trace for the records [all] when
    the lowered format is [fmt]. *)
Definition save_of (fmt : string) (all : list record) (ev : event) : Prop :=
  match ev with
  | EvNow => True
  | EvOpen _ _ | EvSay (MsgSaved _) => fmt = "json" ∨ fmt = "csv"
  | EvWriteJson _ _ records => fmt = "json" ∧ records = all
  | EvWriteCsv _ _ header rows =>
      fmt = "csv" ∧ header = fieldnames_of all ∧ rows = row_of header <$> all
  | _ => False
  end.

(** What [main] may add after saving the records [all]: the summary of
    [all], and the events of [close]. *)
Definition end_of (all : list record) (ev : event) : Prop :=
  close_event ev = true
  ∨ ev = EvSay (MsgSummary (success_count all) (length all - success_count all)).

(** The phases of a run of [main] on the configuration [c], read off its
    trace: start, login check, loop over the links, saving, and the end. *)
Definition run_phases (w : world) (c : config) (s' : state)
    (evs_start evs_login evs_loop evs_save evs_end : list event) (all : list record) : Prop :=
  st_trace s' = evs_end ++ evs_save ++ evs_loop ++ evs_login ++ evs_start
                ++ [EvMakedirs (output_dir c)]
  ∧ Forall (λ ev, start_event ev = true) evs_start
  ∧ Forall (λ ev, login_event ev = true ∧ visits [home_url] ev) evs_login
  ∧ Forall (λ ev, extract_event ev = true ∧ visits (job_links c) ev) evs_loop
  ∧ Forall (save_of (lower (output_format c)) all) evs_save
  ∧ Forall (end_of all) evs_end
  ∧ Forall2 (λ job_url job, job !! "url" = Some (VStr job_url)) (job_links c) all
  ∧ (evs_end ++ evs_save ++ evs_loop ++ evs_login ≠ [] → evs_start = started_events w 1)
  ∧ (st_browser s' = true → st_playwright s' = true).

(** The events that drive the page of the browser. *)
Definition uses_page (ev : event) : bool :=
  match ev with
  | EvGoto _ | EvWaitForSelector _ | EvQuery _ _ | EvQueryAll _ | EvScreenshot _ => true
  | _ => false
  end.


(** Two links, the second of which cannot be reached, exported as CSV. *)
Definition csv_links : config := Config [url1; bad_url] (lit "./job_details") "CSV".

Definition is_csv_write (ev : event) : bool :=
  match ev with EvWriteCsv _ _ _ _ => true | _ => false end.

(** The pause between two links: the two-second sleep of line 251. *)
Definition is_pace (ev : event) : bool :=
  match ev with EvSleep 2 => true | _ => false end.

(** The events of one round of the loop of [main], newest first, for the
    link [job_url]: the round ends with its pause, which is its only one,
    and before it the page of the link, and no other, is visited. *)
Definition round_of (job_url : pystr) (evs : list event) : Prop :=
  ∃ body, evs = EvSleep 2 :: body
          ∧ count_events is_pace body = 0%nat
          ∧ EvGoto job_url ∈ body
          ∧ Forall (visits [job_url]) body.

(** The page behind [bad_url] is gone, as in [world_crash], but the
    screenshot goes through. *)
Definition world_flaky : world := {|
  w_driver := λ _, None;
  w_home := Some (lit "/home/crawler");
  w_pages := λ _, false;
  w_fs := λ _ _, None;
  w_goto := λ _ url, if decide (url = bad_url) then Some navigation_error else None;
  w_sleep := λ _, None;
  w_wait_for_selector := λ _ _, None;
  w_query_selector := λ _ selector, Return (Some (elem "  Rocq engineer "));
  w_query_selector_all := λ _ _, Return [elem " remote "; elem "   "; elem "proofs"; elem "remote"];
  w_screenshot := λ _ _, None;
  w_input := λ _, None;
  w_now := at_noon;
  w_time := λ _, 1715947200;
  w_close := λ _, None |}.

(** ** The model at work *)

Example strip_example : strip ([9; 32] ++ lit "a b" ++ [10; 12288]) = lit "a b".
Proof. reflexivity. Qed.

Example strip_blank : strip (lit "   ") = [].
Proof. reflexivity. Qed.

Example isoformat_example :
  isoformat (DateTime 2024 5 17 9 3 7 0) = lit "2024-05-17T09:03:07"
  ∧ isoformat (DateTime 2024 5 17 9 3 7 2500) = lit "2024-05-17T09:03:07.002500".
Proof. split; reflexivity. Qed.

Example extract_text_found :
  (_extract_text world_healthy ".salary" init_state).1 = Return (lit "Rocq engineer").
Proof. reflexivity. Qed.

Example extract_text_absent :
  (_extract_text world_logged_out ".salary" init_state).1 = Return [].
Proof. reflexivity. Qed.

(** A read that raises in the middle ends the loop: the tag read before
    it is kept, the one after it is never read. *)
Example tags_loop_interrupted :
  tags_loop [elem " a "; Element (Raise navigation_error); elem "b"] []
  = ([lit "a"], Some navigation_error).
Proof. reflexivity. Qed.

Example user_data_dir_example :
  user_data_dir world_healthy = lit "/home/crawler/boss_crawler_data"
  ∧ expanduser (Some (lit "/root/")) (lit "~/boss_crawler_data") = lit "/root/boss_crawler_data"
  ∧ expanduser None (lit "~/boss_crawler_data") = lit "~/boss_crawler_data".
Proof. split_and!; reflexivity. Qed.

Example fieldnames_example :
  fieldnames_of [ {[ "url" := VStr url1 ]}; {[ "error" := VStr []; "url" := VStr url3 ]} ]
  = ["error"; "url"].
Proof. vm_compute. reflexivity. Qed.

Example healthy_run :
  let s' := (main world_healthy (Some one_link) init_state).2 in
  (main world_healthy (Some one_link) init_state).1 = Return tt
  ∧ begun s' = [url1]
  ∧ existsb (λ ev, match ev with EvSay (MsgSummary 1 0) => true | _ => false end)
      (st_trace s') = true.
Proof. vm_compute. done. Qed.

(** ** Properties of [strip] *)

Lemma lstrip_spec s :
  ∃ l, s = l ++ lstrip s ∧ Forall (λ c, is_whitespace c = true) l
       ∧ (∀ c, head (lstrip s) = Some c → is_whitespace c = false).
Proof.
  induction s as [|c s IH]; simpl.
  - exists []. split_and!; [done..|]. intros ? [=].
  - destruct (is_whitespace c) eqn:Hc.
    + destruct IH as (l & Hl & Hws & Hhd). exists (c :: l).
      split_and!; [simpl; by rewrite <- Hl | by constructor | done].
    + exists []. split_and!; [done..|]. intros ? [= <-]. done.
Qed.

Lemma strip_spec s : trimmed_of s (strip s).
Proof.
  unfold trimmed_of, strip, rstrip.
  destruct (lstrip_spec s) as (l & Hs & Hl & Hhd).
  destruct (lstrip_spec (reverse (lstrip s))) as (r & Hr & Hrws & Hlast).
  set (v := reverse (lstrip (reverse (lstrip s)))) in *.
  assert (Ht : lstrip s = v ++ reverse r).
  { rewrite <- (reverse_involutive (lstrip s)). rewrite Hr at 1.
    by rewrite reverse_app. }
  exists l, (reverse r). split_and!.
  - by rewrite <- Ht.
  - done.
  - by apply Forall_reverse.
  - intros c Hc. apply Hhd. rewrite Ht. destruct v; simplify_eq/=; done.
  - intros c Hc. apply Hlast. by rewrite <- last_reverse.
Qed.

Lemma strip_nil : strip [] = [].
Proof. reflexivity. Qed.

Lemma strip_not_blank s : strip s ≠ [] → forallb is_whitespace (strip s) = false.
Proof.
  intros Hne. destruct (strip_spec s) as (_ & _ & _ & _ & _ & Hhd & _).
  destruct (strip s) as [|c v]; [done|]. simpl. by rewrite (Hhd c eq_refl).
Qed.

(** ** Running the monad *)

Lemma bind_run {A B} (m : M A) (k : A → M B) s :
  (m ≫= k) s =
  match m s with
  | (Return a, s') => k a s'
  | (Raise e, s') => (Raise e, s')
  end.
Proof. reflexivity. Qed.

Lemma mret_run {A} (a : A) (s : state) : (mret a : M A) s = (Return a, s).
Proof. reflexivity. Qed.

Lemma _extract_text_run w selector s :
  _extract_text w selector s =
  (Return (field_text w (st_tick s) selector),
   emit (EvQuery selector (query_found w (st_tick s) selector)) s).
Proof.
  unfold _extract_text, field_text, query_found, try_except, query_selector, lift.
  rewrite !bind_run.
  destruct (w_query_selector w (st_tick s) selector) as [[[[[[|c text]|]|e']]|]|e];
    reflexivity.
Qed.

(** ** [_extract_text] is total *)

(** C7. For every selector and every state of the page, [_extract_text]
    returns a string and never raises: the empty string when the query
    raises, finds no element, or the read of the element raises or yields
    no text; otherwise the text of the element with its surrounding
    whitespace removed. *)
Theorem extract_text_total (w : world) (selector : string) (s : state) :
  ∃ v, (_extract_text w selector s).1 = Return v ∧
       match w_query_selector w (st_tick s) selector with
       | Return (Some el) =>
           match text_content el with
           | Return (Some text) => v = strip text ∧ trimmed_of text v
           | _ => v = []
           end
       | _ => v = []
       end.
Proof.
  rewrite _extract_text_run. eexists; split; [reflexivity|].
  unfold field_text.
  destruct (w_query_selector w (st_tick s) selector) as [[[[[text|]|e']]|]|e]; try done.
  split; [done|apply strip_spec].
Qed.

(** ** [_extract_tags] *)

Lemma readable_prefix_all els : Forall readable els → readable_prefix els = els.
Proof.
  induction 1 as [|el els Hel _ IH]; simpl; [done|].
  unfold readable in Hel. by rewrite Hel, IH.
Qed.

Lemma tags_loop_spec els tags :
  (tags_loop els tags).1
  = tags ++ filter (λ t, t ≠ []) ((λ el, strip (element_text el)) <$> readable_prefix els).
Proof.
  revert tags. induction els as [|el els IH]; intros tags; simpl.
  - by rewrite app_nil_r.
  - pose proof (eq_refl (strip (element_text el))) as Hs.
    unfold element_text at 2 in Hs.
    destruct (text_content el) as [[[|c text]|]|e]; simpl.
    + rewrite IH, filter_cons_False; [done|]. rewrite Hs. intros H. by apply H.
    + destruct (strip (c :: text)) as [|c' v] eqn:Hv; simpl; rewrite IH.
      * rewrite filter_cons_False; [done|]. rewrite Hs. intros H. by apply H.
      * rewrite filter_cons_True by (by rewrite Hs). by rewrite Hs, <- app_assoc.
    + rewrite IH, filter_cons_False; [done|]. rewrite Hs. intros H. by apply H.
    + by rewrite app_nil_r.
Qed.

Lemma _extract_tags_total w s : ∃ tags, (_extract_tags w s).1 = Return tags.
Proof.
  unfold _extract_tags, try_except, query_selector_all. rewrite bind_run.
  destruct (w_query_selector_all w (st_tick s) ".job-tags span"); simpl; eauto.
Qed.

(** C8. When the page answers the tag query with the elements [els],
    [_extract_tags] returns the stripped texts that are not empty, in the
    order of [els] and with repetitions kept, of the elements in front of
    the first one whose read raises: of all of [els] when every element
    can be read.  No tag returned is empty or blank. *)
Theorem extract_tags_document_order (w : world) (s : state) (els : list element) :
  w_query_selector_all w (st_tick s) ".job-tags span" = Return els →
  ∃ tags, (_extract_tags w s).1 = Return tags
          ∧ tags = filter (λ t, t ≠ [])
                     ((λ el, strip (element_text el)) <$> readable_prefix els)
          ∧ (Forall readable els →
             tags = filter (λ t, t ≠ []) ((λ el, strip (element_text el)) <$> els))
          ∧ Forall (λ t, t ≠ [] ∧ forallb is_whitespace t = false) tags.
Proof.
  intros Hq. eexists. split_and!; [|reflexivity| |].
  - unfold _extract_tags, try_except, query_selector_all. rewrite bind_run, Hq.
    simpl. by rewrite tags_loop_spec.
  - intros Hels. by rewrite (readable_prefix_all _ Hels).
  - apply Forall_forall. intros t [Hne [el [-> _]]%list_elem_of_fmap]%list_elem_of_filter.
    split; [done|]. by apply strip_not_blank.
Qed.

Lemma extract_tags_document_order_witness :
  ∃ tags, (_extract_tags world_healthy init_state).1 = Return tags
          ∧ tags = [lit "remote"; lit "proofs"; lit "remote"].
Proof.
  destruct (extract_tags_document_order world_healthy init_state
              [elem " remote "; elem "   "; elem "proofs"; elem "remote"] eq_refl)
    as (tags & Hrun & _ & Hall & _).
  exists tags. split; [exact Hrun|].
  rewrite Hall by repeat constructor. vm_compute. reflexivity.
Defined.

(** The claim as the specification has it speaks of every sequence of tag
    elements.  When the read of an element raises, the bare [except]
    around the loop ends it: of the elements [" a "], one that cannot be
    read, and ["b"], whose stripped texts that are not empty are ["a"] and
    ["b"], only ["a"] is returned. *)
Lemma tags_after_failed_read_lost :
  let els := [elem " a "; Element (Raise dom_error); elem "b"] in
  w_query_selector_all world_torn_tags 0 ".job-tags span" = Return els
  ∧ filter (λ t, t ≠ []) ((λ el, strip (element_text el)) <$> els) = [lit "a"; lit "b"]
  ∧ (_extract_tags world_torn_tags init_state).1 = Return [lit "a"].
Proof. split_and!; vm_compute; reflexivity. Qed.

(** ** [extract_job_details] *)

Lemma say_run m s : say m s = (Return tt, note m s).
Proof. reflexivity. Qed.

Lemma call_run ev answer s :
  call ev answer s =
  (match answer (st_tick s) with None => Return tt | Some e => Raise e end, emit ev s).
Proof. unfold call. by destruct (answer (st_tick s)). Qed.

Lemma _extract_tags_run w s :
  _extract_tags w s =
  (Return (page_tags w (st_tick s)), emit (EvQueryAll ".job-tags span") s).
Proof.
  unfold _extract_tags, page_tags, try_except, query_selector_all. rewrite bind_run.
  by destruct (w_query_selector_all w (st_tick s) ".job-tags span").
Qed.

Lemma datetime_now_run w s :
  datetime_now w s = (Return (w_now w (st_tick s)), emit EvNow s).
Proof. reflexivity. Qed.

Lemma time_time_run w s :
  time_time w s = (Return (w_time w (st_tick s)), emit EvTime s).
Proof. reflexivity. Qed.

Ltac run_step :=
  rewrite bind_run;
  first [ rewrite say_run | rewrite _extract_text_run | rewrite _extract_tags_run
        | rewrite datetime_now_run | rewrite time_time_run | rewrite call_run ];
  cbn [st_tick emit note].

Lemma handler_run w job_url e s :
  (say (MsgExtractFailed e);;
   t ← time_time w;
   screenshot w (screenshot_path t);;
   say (MsgScreenshotSaved (screenshot_path t));;
   now ← datetime_now w;
   mret (failed_record job_url e now)) s =
  let s1 := after_screenshot w (note (MsgExtractFailed e) s) in
  match w_screenshot w (S (st_tick s)) (screenshot_path (w_time w (st_tick s))) with
  | None =>
      (Return (failed_record job_url e (w_now w (S (S (st_tick s))))),
       emit EvNow (note (MsgScreenshotSaved (screenshot_path (w_time w (st_tick s)))) s1))
  | Some e' => (Raise e', s1)
  end.
Proof.
  unfold after_screenshot. repeat run_step. unfold screenshot. run_step.
  destruct (w_screenshot _ _ _); [reflexivity|]. repeat run_step. reflexivity.
Qed.

Lemma extract_job_details_outcome w job_url s :
  (extract_job_details w job_url s).1 = extraction_outcome w (st_tick s) job_url.
Proof.
  unfold extract_job_details, try_except_Exception, extraction_outcome, extraction_error.
  run_step. unfold goto at 1. run_step.
  destruct (w_goto w (st_tick s) job_url) as [e|].
  { destruct (exn_cls e); [|reflexivity..]. rewrite handler_run.
    cbn [st_tick emit note]. by destruct (w_screenshot _ _ _). }
  unfold sleep at 1. run_step.
  destruct (w_sleep w (S (st_tick s))) as [e|].
  { destruct (exn_cls e); [|reflexivity..]. rewrite handler_run.
    cbn [st_tick emit note]. by destruct (w_screenshot _ _ _). }
  rewrite bind_run. unfold try_except at 1, wait_for_selector. rewrite call_run.
  cbn [st_tick emit note].
  destruct (w_wait_for_selector _ _ _); [rewrite say_run|]; repeat run_step; reflexivity.
Qed.

Lemma isoformat_nonempty d : isoformat d ≠ [].
Proof.
  unfold isoformat. intros H. apply (f_equal length) in H.
  rewrite !length_app in H. simpl in H. lia.
Qed.

Lemma with_tags_lookup_ne (job : record) tags k :
  k ≠ "tags" → with_tags job tags !! k = job !! k.
Proof. intros Hk. destruct tags; simpl; [done|]. by rewrite lookup_insert_ne. Qed.

Lemma with_tags_lookup (job : record) tags :
  job !! "tags" = None →
  with_tags job tags !! "tags" = match tags with [] => None | _ :: _ => Some (VList tags) end.
Proof. intros Hk. destruct tags; simpl; [done|]. by rewrite lookup_insert_eq. Qed.

Lemma field_text_absent w t selector :
  w_query_selector w t selector = Return None → field_text w t selector = [].
Proof. unfold field_text. by intros ->. Qed.

Lemma scraped_record_fields w t job_url :
  Forall (λ '(key, selector, n),
            scraped_record w t job_url !! key = Some (VStr (field_text w (n + t) selector)))
         content_fields.
Proof.
  unfold scraped_record, content_fields.
  repeat constructor; by rewrite with_tags_lookup_ne.
Qed.

(** C10. A record that [extract_job_details] returns without an [error]
    key holds each of the nine text keys, mapped to the string read behind
    its selector, which is the empty string when the selector finds no
    element; the [tags] key is there exactly when the tag list read from
    the page is not empty, and then holds that list. *)
Theorem successful_record_fields (w : world) (job_url : pystr) (s : state) (job : record) :
  (extract_job_details w job_url s).1 = Return job →
  job !! "error" = None →
  Forall (λ '(key, selector, n),
            job !! key = Some (VStr (field_text w (n + st_tick s) selector))
            ∧ (w_query_selector w (n + st_tick s) selector = Return None →
               job !! key = Some (VStr [])))
         content_fields
  ∧ job !! "tags" = match page_tags w (13 + st_tick s) with
                    | [] => None
                    | tags => Some (VList tags)
                    end
  ∧ (is_Some (job !! "tags") ↔ page_tags w (13 + st_tick s) ≠ []).
Proof.
  rewrite extract_job_details_outcome. unfold extraction_outcome.
  destruct (extraction_error w (st_tick s) job_url) as [[e t']|].
  { destruct (exn_cls e); [|done..].
    destruct (w_screenshot _ _ _); [done|]. by intros [= <-]. }
  intros [= <-] _. split_and!.
  - eapply Forall_impl; [apply scraped_record_fields|].
    intros [[key selector] n] Hkey. split; [done|].
    intros Habsent. by rewrite Hkey, (field_text_absent _ _ _ Habsent).
  - unfold scraped_record. rewrite with_tags_lookup by done.
    by destruct (page_tags w (13 + st_tick s)).
  - unfold scraped_record. rewrite with_tags_lookup by done.
    destruct (page_tags w (13 + st_tick s)); split; done.
Qed.

Lemma successful_record_fields_witness :
  let job := scraped_record world_healthy 0 url1 in
  Forall (λ '(key, selector, n),
            job !! key = Some (VStr (field_text world_healthy (n + 0) selector))
            ∧ (w_query_selector world_healthy (n + 0) selector = Return None →
               job !! key = Some (VStr [])))
         content_fields
  ∧ job !! "tags" = match page_tags world_healthy 13 with
                    | [] => None
                    | tags => Some (VList tags)
                    end
  ∧ (is_Some (job !! "tags") ↔ page_tags world_healthy 13 ≠ []).
Proof.
  apply (successful_record_fields world_healthy url1 init_state).
  - vm_compute. reflexivity.
  - vm_compute. reflexivity.
Defined.

(** ** The two shapes of a record *)

Lemma failed_record_dom job_url e now :
  dom (failed_record job_url e now) = {[ "url"; "error"; "extracted_at" ]}.
Proof. unfold failed_record. rewrite !dom_insert_L, dom_empty_L. set_solver. Qed.

(** C6, as amended. A record that [extract_job_details] returns holds its
    URL and a non-empty timestamp, and is of one of two shapes: without an
    [error] key, or with the keys [url], [error] and [extracted_at] and no
    other, [error] holding the description of the error that ended the
    attempt, which is empty when that error has no message. *)
Theorem extraction_record_shape (w : world) (job_url : pystr) (s : state) (job : record) :
  (extract_job_details w job_url s).1 = Return job →
  job !! "url" = Some (VStr job_url)
  ∧ (∃ stamp, job !! "extracted_at" = Some (VStr stamp) ∧ stamp ≠ [])
  ∧ (job !! "error" = None
     ∨ ∃ e t', extraction_error w (st_tick s) job_url = Some (e, t')
               ∧ job !! "error" = Some (VStr (exn_str e))
               ∧ dom job = {[ "url"; "error"; "extracted_at" ]}).
Proof.
  rewrite extract_job_details_outcome. unfold extraction_outcome.
  destruct (extraction_error w (st_tick s) job_url) as [[e t']|].
  - destruct (exn_cls e); [|done..].
    destruct (w_screenshot _ _ _); [done|]. intros [= <-]. split_and!.
    + done.
    + eexists. split; [reflexivity|apply isoformat_nonempty].
    + right. exists e, t'. split_and!; [done..|apply failed_record_dom].
  - intros [= <-]. unfold scraped_record. split_and!.
    + by rewrite with_tags_lookup_ne.
    + eexists. rewrite with_tags_lookup_ne by done.
      split; [reflexivity|apply isoformat_nonempty].
    + left. by rewrite with_tags_lookup_ne.
Qed.

Lemma extraction_record_shape_witness :
  let job := failed_record url1 (Exn ExceptionClass []) (at_noon 3) in
  job !! "url" = Some (VStr url1)
  ∧ (∃ stamp, job !! "extracted_at" = Some (VStr stamp) ∧ stamp ≠ [])
  ∧ (job !! "error" = None
     ∨ ∃ e t', extraction_error world_silent_error 0 url1 = Some (e, t')
               ∧ job !! "error" = Some (VStr (exn_str e))
               ∧ dom job = {[ "url"; "error"; "extracted_at" ]}).
Proof.
  apply (extraction_record_shape world_silent_error url1 init_state).
  vm_compute. reflexivity.
Defined.

(** The claim as the specification has it asks for a non-empty error
    description: a navigation error without a message gives a failed
    record whose [error] is the empty string. *)
Lemma empty_error_description :
  ∃ job, (extract_job_details world_silent_error url1 init_state).1 = Return job
         ∧ job !! "error" = Some (VStr []).
Proof. eexists. split; vm_compute; reflexivity. Qed.

(** ** What a computation adds to the trace *)

Section Emits.
Context {A : Type} (P : event → Prop).

Lemma emits_only_ret (a : A) : emits_only P (mret a).
Proof. intros s. by exists []. Qed.

Lemma emits_only_lift (o : outcome A) : emits_only P (lift o).
Proof. intros s. by exists []. Qed.

Lemma emits_only_bind {B} (m : M B) (k : B → M A) :
  emits_only P m → (∀ b, emits_only P (k b)) → emits_only P (m ≫= k).
Proof.
  intros Hm Hk s. rewrite bind_run.
  destruct (Hm s) as (evs & Htr & HP & Hb & Hp).
  destruct (m s) as [[b|e] s1]; simpl in *.
  - destruct (Hk b s1) as (evs' & Htr' & HP' & Hb' & Hp').
    exists (evs' ++ evs). rewrite Htr', Htr, Hb', Hp', app_assoc.
    split_and!; [done|by apply Forall_app|done..].
  - by exists evs.
Qed.

Lemma emits_only_try_except (body : M A) handler :
  emits_only P body → (∀ e, emits_only P (handler e)) →
  emits_only P (try_except body handler).
Proof.
  intros Hm Hk s. unfold try_except.
  destruct (Hm s) as (evs & Htr & HP & Hb & Hp).
  destruct (body s) as [[b|e] s1]; simpl in *.
  - by exists evs.
  - destruct (Hk e s1) as (evs' & Htr' & HP' & Hb' & Hp').
    exists (evs' ++ evs). rewrite Htr', Htr, Hb', Hp', app_assoc.
    split_and!; [done|by apply Forall_app|done..].
Qed.

Lemma emits_only_try_except_Exception (body : M A) handler :
  emits_only P body → (∀ e, emits_only P (handler e)) →
  emits_only P (try_except_Exception body handler).
Proof.
  intros Hm Hk s. unfold try_except_Exception.
  destruct (Hm s) as (evs & Htr & HP & Hb & Hp).
  destruct (body s) as [[b|e] s1]; simpl in *; [by exists evs|].
  destruct (exn_cls e); [|by exists evs..].
  destruct (Hk e s1) as (evs' & Htr' & HP' & Hb' & Hp').
  exists (evs' ++ evs). rewrite Htr', Htr, Hb', Hp', app_assoc.
  split_and!; [done|by apply Forall_app|done..].
Qed.
End Emits.

Lemma emits_only_say P m : P (EvSay m) → emits_only P (say m).
Proof. intros HP s. exists [EvSay m]. split_and!; [done|by constructor|done..]. Qed.

Lemma emits_only_call P ev answer : P ev → emits_only P (call ev answer).
Proof.
  intros HP s. exists [ev]. rewrite call_run.
  split_and!; [done|by constructor|done..].
Qed.

Lemma emits_only_query_selector (P : event → Prop) w selector :
  (∀ found, P (EvQuery selector found)) → emits_only P (query_selector w selector).
Proof. intros HP s. eexists [_]. split_and!; [done|by constructor|done..]. Qed.

Lemma emits_only_mono {A} (P Q : event → Prop) (m : M A) :
  (∀ ev, P ev → Q ev) → emits_only P m → emits_only Q m.
Proof.
  intros HPQ Hm s. destruct (Hm s) as (evs & Htr & HP & Hb & Hp).
  exists evs. split_and!; [done| |done..]. by eapply Forall_impl.
Qed.

Lemma emits_only__extract_text (P : event → Prop) w selector :
  (∀ found, P (EvQuery selector found)) → emits_only P (_extract_text w selector).
Proof.
  intros HP s. rewrite _extract_text_run. eexists [_].
  split_and!; [done|by constructor|done..].
Qed.

Lemma emits_only__extract_tags (P : event → Prop) w :
  P (EvQueryAll ".job-tags span") → emits_only P (_extract_tags w).
Proof.
  intros HP s. rewrite _extract_tags_run. eexists [_].
  split_and!; [done|by constructor|done..].
Qed.

Lemma emits_only_datetime_now (P : event → Prop) w : P EvNow → emits_only P (datetime_now w).
Proof. intros HP s. exists [EvNow]. split_and!; [done|by constructor|done..]. Qed.

Lemma emits_only_time_time (P : event → Prop) w : P EvTime → emits_only P (time_time w).
Proof. intros HP s. exists [EvTime]. split_and!; [done|by constructor|done..]. Qed.

(** Walks through a computation built from the pieces above; the events
    themselves are checked by evaluation. *)
Ltac emits :=
  repeat lazymatch goal with
    | |- emits_only _ (_extract_text _ _) =>
        apply emits_only__extract_text; intros ?; reflexivity
    | |- emits_only _ (_extract_tags _) => apply emits_only__extract_tags; reflexivity
    | |- emits_only _ (query_selector _ _) =>
        apply emits_only_query_selector; intros ?; reflexivity
    | |- emits_only _ (datetime_now _) => apply emits_only_datetime_now; reflexivity
    | |- emits_only _ (time_time _) => apply emits_only_time_time; reflexivity
    | |- emits_only _ (say _) => apply emits_only_say; reflexivity
    | |- emits_only _ (call _ _) => apply emits_only_call; reflexivity
    | |- emits_only _ (mret _) => apply emits_only_ret
    | |- emits_only _ (lift _) => apply emits_only_lift
    | |- emits_only _ (try_except_Exception _ _) =>
        apply emits_only_try_except_Exception; [|intros ?]
    | |- emits_only _ (try_except _ _) => apply emits_only_try_except; [|intros ?]
    | |- emits_only _ (_ ≫= _) => apply emits_only_bind; [|intros ?]
    | |- emits_only _ (match ?x with _ => _ end) => destruct x
    end.

Lemma emits_only_extract_job_details w job_url :
  emits_only (λ ev, extract_event ev = true) (extract_job_details w job_url).
Proof.
  unfold extract_job_details, goto, sleep, wait_for_selector, screenshot. emits.
Qed.

Lemma emits_only_probe_indicators w indicators :
  emits_only (λ ev, login_event ev = true) (probe_indicators w indicators).
Proof. induction indicators as [|indicator rest IH]; simpl; emits; apply IH. Qed.

Lemma emits_only_poll_login w n :
  emits_only (λ ev, login_event ev = true) (poll_login w n).
Proof.
  induction n as [|n IH]; simpl; unfold sleep; emits;
    first [apply emits_only_probe_indicators | apply IH].
Qed.

Lemma emits_only_ensure_logged_in w :
  emits_only (λ ev, login_event ev = true) (ensure_logged_in w).
Proof.
  unfold ensure_logged_in, goto, sleep, input. emits;
    first [apply emits_only_probe_indicators | apply emits_only_poll_login].
Qed.

Lemma emits_only_main_loop w total i links all_job_details :
  emits_only (λ ev, extract_event ev = true) (main_loop w total i links all_job_details).
Proof.
  revert i all_job_details.
  induction links as [|job_url rest IH]; intros i all_job_details; simpl;
    unfold sleep; emits; first [apply emits_only_extract_job_details | apply IH].
Qed.

Lemma emits_only_save_results w cfg all_job_details :
  emits_only (λ ev, save_event ev = true) (save_results w cfg all_job_details).
Proof. unfold save_results. emits. Qed.

(** ** The error handler of [extract_job_details] *)

Lemma extract_job_details_screenshot w job_url s e t' :
  extraction_error w (st_tick s) job_url = Some (e, t') →
  exn_cls e = ExceptionClass →
  EvScreenshot (screenshot_path (w_time w t')) ∈ st_trace (extract_job_details w job_url s).2.
Proof.
  unfold extract_job_details, try_except_Exception, extraction_error.
  run_step. unfold goto at 1. run_step.
  destruct (w_goto w (st_tick s) job_url) as [e1|].
  { intros [= -> <-] ->. rewrite handler_run. cbn [st_tick emit note].
    destruct (w_screenshot _ _ _); simpl; set_solver. }
  unfold sleep at 1. run_step.
  destruct (w_sleep w (S (st_tick s))) as [e1|]; [|done].
  intros [= -> <-] ->. rewrite handler_run. cbn [st_tick emit note].
  destruct (w_screenshot _ _ _); simpl; set_solver.
Qed.

(** When the screenshot goes through, the error of the attempt comes back
    as a failed record. *)
Lemma extract_job_details_failed_record w job_url s e t' :
  extraction_error w (st_tick s) job_url = Some (e, t') →
  exn_cls e = ExceptionClass →
  w_screenshot w (S t') (screenshot_path (w_time w t')) = None →
  (extract_job_details w job_url s).1
  = Return (failed_record job_url e (w_now w (S (S t')))).
Proof.
  intros Herr Hcls Hshot. rewrite extract_job_details_outcome.
  unfold extraction_outcome. by rewrite Herr, Hcls, Hshot.
Qed.

(** When the screenshot raises, its error is what leaves the function. *)
Lemma extract_job_details_screenshot_raises w job_url s e t' e' :
  extraction_error w (st_tick s) job_url = Some (e, t') →
  exn_cls e = ExceptionClass →
  w_screenshot w (S t') (screenshot_path (w_time w t')) = Some e' →
  (extract_job_details w job_url s).1 = Raise e'.
Proof.
  intros Herr Hcls Hshot. rewrite extract_job_details_outcome.
  unfold extraction_outcome. by rewrite Herr, Hcls, Hshot.
Qed.

(** C1. At a page that is gone, navigation raises and so does the
    screenshot taken in the handler: [extract_job_details] then raises the
    error of the screenshot and returns no record, so the navigation error
    is lost; the screenshot had been asked for. *)
Theorem screenshot_failure_masks_error :
  extraction_error world_crash 0 bad_url = Some (navigation_error, 1%nat)
  ∧ (extract_job_details world_crash bad_url init_state).1 = Raise screenshot_error
  ∧ EvScreenshot (screenshot_path 1715947200)
      ∈ st_trace (extract_job_details world_crash bad_url init_state).2.
Proof.
  split_and!; [reflexivity|vm_compute; reflexivity|].
  apply (extract_job_details_screenshot world_crash bad_url init_state navigation_error 1);
    reflexivity.
Qed.

(** ** The empty list of links *)

(** The specification has the writer run on the empty list and a summary
    of zero successes and zero failures: the run says that there are no
    links, and does nothing else. *)
Lemma empty_run_writes_nothing :
  let s := (main world_healthy (Some empty_config) init_state).2 in
  st_trace s = [EvSay MsgNoJobLinks]
  ∧ ¬ ((∃ ev, ev ∈ st_trace s ∧ is_write ev = true) ∧ EvSay (MsgSummary 0 0) ∈ st_trace s).
Proof.
  split; [reflexivity|]. intros [[ev [Hev Hw]] _]. simpl in Hev.
  apply list_elem_of_singleton in Hev as ->. done.
Qed.

(** C2, as amended. With no job link the run returns at once: it reports
    that the configuration holds no link and does nothing else, so no
    session is started, no record list is built, the writer is not called,
    no file is written and no summary is printed. *)
Theorem empty_run_is_noop (w : world) (dir : pystr) (fmt : string) (s : state) :
  main w (Some (Config [] dir fmt)) s = (Return tt, note MsgNoJobLinks s)
  ∧ program w (Some (Config [] dir fmt)) s = (Return tt, note MsgNoJobLinks s)
  ∧ st_trace (note MsgNoJobLinks s) = EvSay MsgNoJobLinks :: st_trace s
  ∧ st_browser (note MsgNoJobLinks s) = st_browser s.
Proof. done. Qed.

(** ** Closing the session *)

Lemma start_returns w s s' :
  start w s = (Return tt, s') → st_browser s' = true ∧ st_playwright s' = true.
Proof.
  unfold start, makedirs, set_playwright, set_browser, pages.
  repeat (rewrite bind_run, ?call_run; cbn [st_tick emit note]).
  repeat case_match; rewrite ?mret_run, ?call_run in *; repeat case_match;
    intros; simplify_eq; done.
Qed.

Lemma close_returns w s s' :
  st_browser s = true → st_playwright s = true →
  close w s = (Return tt, s') →
  st_trace s' = EvSay MsgBrowserClosed :: EvPlaywrightStop :: EvBrowserClose :: st_trace s.
Proof.
  unfold close. intros Hb Hp. rewrite bind_run, Hb, call_run.
  destruct (w_close w (st_tick s)); [done|].
  rewrite bind_run. cbn [st_playwright emit]. rewrite Hp, call_run.
  destruct (w_close w _); [done|]. by intros [= <-].
Qed.

(** The specification has the session closed on every way out once it
    was started.  Here the result file cannot be opened: the error leaves
    [main], the entry point logs it, and the program ends with the browser
    launched and never closed.  It is the same when the operator
    interrupts the run. *)
Lemma session_left_open :
  (let s' := (program world_read_only (Some one_link) init_state).2 in
   (main world_read_only (Some one_link) init_state).1 = Raise permission_error
   ∧ head (st_trace s') = Some (EvSay (MsgProgramError permission_error))
   ∧ st_browser s' = true
   ∧ existsb is_launch (st_trace s') = true
   ∧ existsb is_close (st_trace s') = false)
  ∧ (let s' := (program world_interrupted (Some one_link) init_state).2 in
     (main world_interrupted (Some one_link) init_state).1 = Raise keyboard_interrupt
     ∧ head (st_trace s') = Some (EvSay MsgInterrupted)
     ∧ st_browser s' = true
     ∧ existsb is_launch (st_trace s') = true
     ∧ existsb is_close (st_trace s') = false).
Proof. vm_compute. done. Qed.

(** C3, as amended. When [main] returns (the run came to its end or the
    login timed out) with the browser launched, the last thing it did was
    to close the browser and stop the driver.  An error or an interruption
    that leaves [main] is only reported by the entry point. *)
Theorem main_closes_on_return (w : world) (cfg : option config) (s s' : state) :
  main w cfg s = (Return tt, s') →
  st_browser s = false →
  st_browser s' = true →
  ∃ rest, st_trace s' = EvSay MsgBrowserClosed :: EvPlaywrightStop :: EvBrowserClose :: rest.
Proof.
  intros Hmain Hb0 Hb'. unfold main in Hmain.
  destruct cfg as [c|]; [|rewrite say_run in Hmain; simplify_eq/=; congruence].
  destruct (job_links c) as [|u links] eqn:Hlinks;
    [rewrite say_run in Hmain; simplify_eq/=; congruence|].
  rewrite <- Hlinks in Hmain. clear Hlinks.
  rewrite bind_run in Hmain.
  destruct (makedirs w (output_dir c) s) as [[[]|e] s0]; [|done].
  rewrite bind_run in Hmain. unfold new_crawler at 1 in Hmain.
  set (s1 := State (st_tick s0) (st_trace s0) false false) in Hmain.
  rewrite bind_run in Hmain.
  destruct (start w s1) as [[[]|e] s2] eqn:Hstart; [|done].
  apply start_returns in Hstart as [Hb2 Hp2].
  rewrite bind_run in Hmain.
  destruct (emits_only_ensure_logged_in w s2) as (_ & _ & _ & Hb3 & Hp3).
  destruct (ensure_logged_in w s2) as [[[]|e] s3]; simpl in *; [| |done].
  - rewrite bind_run in Hmain.
    match type of Hmain with context [main_loop w ?t ?i ?l ?a s3] =>
      destruct (emits_only_main_loop w t i l a s3) as (_ & _ & _ & Hb4 & Hp4);
      destruct (main_loop w t i l a s3) as [[all|e] s4]; [|done] end.
    rewrite bind_run in Hmain.
    destruct (emits_only_save_results w c all s4) as (_ & _ & _ & Hb5 & Hp5).
    destruct (save_results w c all s4) as [[[]|e] s5]; [|done].
    rewrite bind_run, say_run in Hmain. simpl in *.
    eexists. eapply close_returns; [| |exact Hmain]; simpl; congruence.
  - eexists. eapply close_returns; [| |exact Hmain]; congruence.
Qed.

Lemma main_closes_on_return_witness :
  (∃ rest, st_trace (main world_healthy (Some one_link) init_state).2
           = EvSay MsgBrowserClosed :: EvPlaywrightStop :: EvBrowserClose :: rest)
  ∧ (∃ rest, st_trace (main world_logged_out (Some one_link) init_state).2
             = EvSay MsgBrowserClosed :: EvPlaywrightStop :: EvBrowserClose :: rest).
Proof.
  split.
  - apply (main_closes_on_return world_healthy (Some one_link) init_state);
      vm_compute; reflexivity.
  - apply (main_closes_on_return world_logged_out (Some one_link) init_state);
      vm_compute; reflexivity.
Defined.

(** ** One record per link *)

Lemma extraction_outcome_url w t job_url job :
  extraction_outcome w t job_url = Return job → job !! "url" = Some (VStr job_url).
Proof.
  unfold extraction_outcome.
  destruct (extraction_error w t job_url) as [[e t']|].
  - destruct (exn_cls e); [|done..]. destruct (w_screenshot _ _ _); [done|].
    by intros [= <-].
  - intros [= <-]. unfold scraped_record. by rewrite with_tags_lookup_ne.
Qed.

Lemma extraction_outcome_returns w t job_url :
  (∀ t, w_sleep w t = None) →
  (∀ t url e, w_goto w t url = Some e → exn_cls e = ExceptionClass) →
  (∀ t path, w_screenshot w t path = None) →
  ∃ job, extraction_outcome w t job_url = Return job.
Proof.
  intros Hsleep Hgoto Hshot. unfold extraction_outcome, extraction_error.
  rewrite Hsleep. destruct (w_goto w t job_url) as [e|] eqn:He; [|eauto].
  rewrite (Hgoto _ _ _ He), Hshot. eauto.
Qed.

(** As long as no screenshot fails and nothing interrupts the run, the
    loop of [main] returns one record per link, in the order of the links,
    whether the extractions failed or not. *)
Lemma main_loop_records w total i links all_job_details s :
  (∀ t, w_sleep w t = None) →
  (∀ t url e, w_goto w t url = Some e → exn_cls e = ExceptionClass) →
  (∀ t path, w_screenshot w t path = None) →
  ∃ records, (main_loop w total i links all_job_details s).1
             = Return (all_job_details ++ records)
             ∧ Forall2 (λ job_url job, job !! "url" = Some (VStr job_url)) links records.
Proof.
  intros Hsleep Hgoto Hshot. revert i all_job_details s.
  induction links as [|job_url rest IH]; intros i all_job_details s; simpl.
  - exists []. by rewrite app_nil_r.
  - rewrite bind_run, say_run, bind_run.
    pose proof (extract_job_details_outcome w job_url (note (MsgProgressItem i total job_url) s))
      as Hout.
    destruct (extraction_outcome_returns w
                (st_tick (note (MsgProgressItem i total job_url) s)) job_url
                Hsleep Hgoto Hshot) as [job Hjob].
    rewrite Hjob in Hout.
    destruct (extract_job_details w job_url _) as [r s1]. simpl in Hout. subst r.
    rewrite bind_run.
    assert (∃ s2, (match job !! "title" with
                   | Some v => say (MsgProgressTitle v)
                   | None => mret ()
                   end) s1 = (Return tt, s2)) as [s2 ->]
      by (destruct (job !! "title"); eauto).
    rewrite bind_run.
    assert (∃ s3, (match job !! "error" with
                   | Some v => say (MsgProgressError v)
                   | None => mret ()
                   end) s2 = (Return tt, s3)) as [s3 ->]
      by (destruct (job !! "error"); eauto).
    rewrite bind_run. unfold sleep at 1. rewrite call_run, Hsleep.
    destruct (IH (S i) (all_job_details ++ [job]) (emit (EvSleep 2) s3))
      as (records & -> & Hrecords).
    exists (job :: records). rewrite <- app_assoc. split; [done|].
    constructor; [|done]. by eapply extraction_outcome_url.
Qed.

(** C4. Three links, the page of the second is gone: its navigation
    raises and so does the screenshot of the handler.  The run does not
    get to three records: the error leaves [extract_job_details] and
    [main], the third link is never begun, and neither a file nor a
    summary is written. *)
Theorem run_aborts_on_failed_target :
  let s' := (main world_crash (Some three_links) init_state).2 in
  (main world_crash (Some three_links) init_state).1 = Raise screenshot_error
  ∧ begun s' = [url1; bad_url]
  ∧ existsb is_write (st_trace s') = false
  ∧ existsb is_summary (st_trace s') = false
  ∧ existsb is_close (st_trace s') = false.
Proof. vm_compute. done. Qed.

(** ** The tabular export *)

Lemma elem_of_foldl_union_dom (jobs : list record) (acc : gset string) k :
  k ∈ foldl (λ (acc : gset string) (job : record), acc ∪ dom job) acc jobs
  ↔ k ∈ acc ∨ ∃ job, job ∈ jobs ∧ is_Some (job !! k).
Proof.
  revert acc. induction jobs as [|job jobs IH]; intros acc; simpl.
  - split; [by left|]. intros [?|(job & Hin & _)]; [done|]. by apply elem_of_nil in Hin.
  - rewrite IH, elem_of_union, elem_of_dom. split.
    + intros [[?|?]|(job' & Hin & Hk)]; [by left| |].
      * right. exists job. split; [by left|done].
      * right. exists job'. split; [by right|done].
    + intros [?|(job' & Hin & Hk)]; [by left; left|].
      apply elem_of_cons in Hin as [->|Hin]; [by left; right|].
      right. by exists job'.
Qed.

Lemma elem_of_fieldnames_of jobs k :
  k ∈ fieldnames_of jobs ↔ ∃ job, job ∈ jobs ∧ is_Some (job !! k).
Proof.
  unfold fieldnames_of. rewrite merge_sort_Permutation, elem_of_elements.
  rewrite elem_of_foldl_union_dom. split; [|by right].
  intros [Hk|?]; [|done]. set_solver.
Qed.

Lemma fieldnames_of_sorted jobs : StronglySorted String.le (fieldnames_of jobs).
Proof. apply (StronglySorted_merge_sort _). Qed.

Lemma fieldnames_of_NoDup jobs : NoDup (fieldnames_of jobs).
Proof. unfold fieldnames_of. rewrite merge_sort_Permutation. apply NoDup_elements. Qed.

Lemma write_rows_returns fieldnames jobs :
  (∀ job k, job ∈ jobs → is_Some (job !! k) → k ∈ fieldnames) →
  write_rows fieldnames jobs = Return (row_of fieldnames <$> jobs).
Proof.
  induction jobs as [|job jobs IH]; intros Hkeys; simpl; [done|].
  unfold dict_to_list. rewrite decide_True.
  - rewrite IH; [done|]. intros job' k Hin. apply Hkeys. by right.
  - intros k Hk. apply elem_of_list_to_set. apply (Hkeys job); [by left|].
    by apply elem_of_dom.
Qed.

Lemma save_results_csv w cfg jobs s :
  lower (output_format cfg) = "csv" →
  w_fs w (S (st_tick s)) (csv_file w (st_tick s)) = None →
  EvWriteCsv (output_dir cfg) (csv_file w (st_tick s)) (fieldnames_of jobs)
    (row_of (fieldnames_of jobs) <$> jobs)
  ∈ st_trace (save_results w cfg jobs s).2.
Proof.
  intros Hfmt Hopen. unfold save_results. rewrite Hfmt.
  rewrite bind_run, datetime_now_run. cbn [st_tick emit].
  rewrite decide_False by done. rewrite decide_True by done.
  rewrite bind_run, call_run. cbn [st_tick emit]. fold (csv_file w (st_tick s)).
  rewrite Hopen, bind_run.
  rewrite write_rows_returns by (intros job k Hin Hk; apply elem_of_fieldnames_of; eauto).
  unfold lift. rewrite bind_run, call_run. cbn [st_tick emit].
  destruct (w_fs w (S (S (st_tick s))) _); simpl; rewrite ?elem_of_cons; auto.
Qed.

(** C9. The header of the tabular export is the duplicate-free list, in
    increasing order, of the field names that occur in some record, and
    the only such list; writing the rows never raises, and the row of each
    record holds one cell per header, the value of the field or the empty
    string when the record lacks it.  This header and these rows are what
    [main] writes when the format is [csv] and the file opens. *)
Theorem csv_header_and_rows (jobs : list record) :
  let header := fieldnames_of jobs in
  StronglySorted String.le header
  ∧ NoDup header
  ∧ (∀ k, k ∈ header ↔ ∃ job, job ∈ jobs ∧ is_Some (job !! k))
  ∧ (∀ l, StronglySorted String.le l → NoDup l →
          (∀ k, k ∈ l ↔ ∃ job, job ∈ jobs ∧ is_Some (job !! k)) → l = header)
  ∧ (∃ rows, write_rows header jobs = Return rows
             ∧ Forall2 (λ job row,
                          length row = length header
                          ∧ ∀ i k, header !! i = Some k →
                                   row !! i = Some (default (VStr []) (job !! k)))
                       jobs rows
             ∧ ∀ w cfg s,
                 lower (output_format cfg) = "csv" →
                 w_fs w (S (st_tick s)) (csv_file w (st_tick s)) = None →
                 EvWriteCsv (output_dir cfg) (csv_file w (st_tick s)) header rows
                 ∈ st_trace (save_results w cfg jobs s).2).
Proof.
  intros header. subst header. split_and!.
  - apply fieldnames_of_sorted.
  - apply fieldnames_of_NoDup.
  - apply elem_of_fieldnames_of.
  - intros l Hsorted Hnodup Hl.
    apply (StronglySorted_unique String.le); [done|apply fieldnames_of_sorted|].
    apply NoDup_Permutation; [done|apply fieldnames_of_NoDup|].
    intros k. by rewrite Hl, elem_of_fieldnames_of.
  - exists (row_of (fieldnames_of jobs) <$> jobs). split_and!.
    + apply write_rows_returns. intros job k Hin Hk.
      apply elem_of_fieldnames_of. eauto.
    + apply Forall2_fmap_r, Forall_Forall2_diag, Forall_forall.
      intros job _. unfold row_of. split; [by rewrite length_fmap|].
      intros i k Hi. by rewrite list_lookup_fmap, Hi.
    + intros w cfg s. apply save_results_csv.
Qed.

Lemma csv_header_and_rows_witness :
  fieldnames_of two_records
  = ["city"; "company"; "company_size"; "company_type"; "education"; "error";
     "experience"; "extracted_at"; "job_description"; "salary"; "tags"; "title"; "url"]
  ∧ ∃ rows, write_rows (fieldnames_of two_records) two_records = Return rows
            ∧ EvWriteCsv (lit "./job_details") (csv_file world_healthy 0)
                (fieldnames_of two_records) rows
              ∈ st_trace (save_results world_healthy
                            (Config [url1; bad_url] (lit "./job_details") "CSV")
                            two_records init_state).2.
Proof.
  split; [vm_compute; reflexivity|].
  destruct (csv_header_and_rows two_records) as (_ & _ & _ & _ & rows & Hrows & _ & Hmain).
  exists rows. split; [exact Hrows|].
  apply (Hmain world_healthy (Config [url1; bad_url] (lit "./job_details") "CSV") init_state);
    vm_compute; reflexivity.
Defined.

(** ** Waiting for the login *)


Lemma polls_app evs1 evs2 : polls (evs1 ++ evs2) = (polls evs1 + polls evs2)%nat.
Proof. unfold polls. by rewrite List.filter_app, length_app. Qed.

Lemma polls_cons ev evs :
  polls (ev :: evs) = ((if is_poll ev then 1 else 0) + polls evs)%nat.
Proof. unfold polls. simpl. by destruct (is_poll ev). Qed.

Lemma polls_nil : polls [] = 0%nat.
Proof. reflexivity. Qed.

Global Arguments polls : simpl never.

Ltac polls_norm :=
  repeat first [rewrite polls_app | rewrite polls_cons | rewrite polls_nil
               | rewrite existsb_app | progress simpl].

(** One pass over the indicators never raises; its answer is whether one
    of its probes found an element. *)
Lemma probe_indicators_spec w indicators s :
  ∃ evs, st_trace (probe_indicators w indicators s).2 = evs ++ st_trace s
         ∧ (probe_indicators w indicators s).1 = Return (existsb is_match evs)
         ∧ existsb is_timeout evs = false
         ∧ polls evs = 0%nat.
Proof.
  revert s. induction indicators as [|indicator rest IH]; intros s; simpl.
  - by exists [].
  - rewrite bind_run. unfold try_except, query_selector.
    destruct (w_query_selector w (st_tick s) indicator) as [[el|]|e]; simpl.
    + by eexists [_].
    + destruct (IH (emit (EvQuery indicator false) s)) as (evs & -> & -> & Ht & Hp).
      exists (evs ++ [EvQuery indicator false]).
      rewrite <- app_assoc. polls_norm. rewrite Ht, Hp. simpl.
      by rewrite orb_false_r.
    + destruct (IH (emit (EvQuery indicator false) s)) as (evs & -> & -> & Ht & Hp).
      exists (evs ++ [EvQuery indicator false]).
      rewrite <- app_assoc. polls_norm. rewrite Ht, Hp. simpl.
      by rewrite orb_false_r.
Qed.

Ltac list_norm := repeat first [rewrite <- app_assoc | progress simpl].

Lemma poll_login_S w n :
  poll_login w (S n) =
  (sleep w 5;;
   found ← probe_indicators w login_indicators;
   if (found : bool) then (say MsgLoginOk;; mret true)
   else (say MsgWaitingLogin;; poll_login w n)).
Proof. reflexivity. Qed.






Lemma existsb_Forall_false (p q : event → bool) evs :
  (∀ ev, q ev = true → p ev = false) →
  Forall (λ ev, q ev = true) evs → existsb p evs = false.
Proof.
  intros Hpq. induction 1 as [|ev evs Hev _ IH]; simpl; [done|].
  by rewrite (Hpq _ Hev), IH.
Qed.










(** * Further properties of the crawler *)

(** ** Trimmed values *)

Lemma lstrip_fixed s :
  (∀ c, head s = Some c → is_whitespace c = false) → lstrip s = s.
Proof. destruct s as [|c s]; [done|]. intros H. simpl. by rewrite (H c eq_refl). Qed.

Lemma strip_fixed v :
  (∀ c, head v = Some c → is_whitespace c = false) →
  (∀ c, last v = Some c → is_whitespace c = false) →
  strip v = v.
Proof.
  intros Hhd Hlast. unfold strip, rstrip. rewrite (lstrip_fixed v Hhd).
  rewrite lstrip_fixed; [apply reverse_involutive|].
  intros c Hc. apply Hlast. by rewrite <- head_reverse.
Qed.

Lemma strip_idemp s : strip (strip s) = strip s.
Proof.
  destruct (strip_spec s) as (_ & _ & _ & _ & _ & Hhd & Hlast). by apply strip_fixed.
Qed.

Lemma field_text_trimmed w t selector :
  strip (field_text w t selector) = field_text w t selector.
Proof.
  unfold field_text.
  destruct (w_query_selector w t selector) as [[[[[text|]|e']]|]|e]; try done.
  apply strip_idemp.
Qed.

Lemma page_tags_trimmed w t : Forall (λ tag, strip tag = tag) (page_tags w t).
Proof.
  unfold page_tags. destruct (w_query_selector_all w t ".job-tags span") as [els|e]; [|done].
  rewrite tags_loop_spec. simpl. apply Forall_forall.
  intros tag [_ [el [-> _]]%list_elem_of_fmap]%list_elem_of_filter. apply strip_idemp.
Qed.

(** X1. Whatever the page holds, the text fields and the tags of a record
    without an [error] key carry no surrounding whitespace: stripping
    them again changes nothing. *)
Theorem record_values_trimmed (w : world) (job_url : pystr) (s : state) (job : record) :
  (extract_job_details w job_url s).1 = Return job →
  job !! "error" = None →
  Forall (λ '(key, _, _), ∃ v, job !! key = Some (VStr v) ∧ strip v = v) content_fields
  ∧ ∀ tags, job !! "tags" = Some (VList tags) → Forall (λ tag, strip tag = tag) tags.
Proof.
  rewrite extract_job_details_outcome. unfold extraction_outcome.
  destruct (extraction_error w (st_tick s) job_url) as [[e t']|].
  { destruct (exn_cls e); [|done..].
    destruct (w_screenshot _ _ _); [done|]. by intros [= <-]. }
  intros [= <-] _. split.
  - eapply Forall_impl; [apply scraped_record_fields|].
    intros [[key selector] n] Hkey. eexists. split; [exact Hkey|apply field_text_trimmed].
  - intros tags. unfold scraped_record. rewrite with_tags_lookup by done.
    pose proof (page_tags_trimmed w (13 + st_tick s)) as Htags.
    destruct (page_tags w (13 + st_tick s)); [done|]. by intros [= <-].
Qed.

Lemma record_values_trimmed_witness :
  let job := scraped_record world_healthy 0 url1 in
  Forall (λ '(key, _, _), ∃ v, job !! key = Some (VStr v) ∧ strip v = v) content_fields
  ∧ ∀ tags, job !! "tags" = Some (VList tags) → Forall (λ tag, strip tag = tag) tags.
Proof.
  apply (record_values_trimmed world_healthy url1 init_state); vm_compute; reflexivity.
Defined.

(** ** Extraction and its screenshot *)

Lemma trace_here (base : list event) : base = [] ++ base.
Proof. reflexivity. Qed.

Lemma trace_more (ev : event) tr evs base :
  tr = evs ++ base → ev :: tr = (ev :: evs) ++ base.
Proof. by intros ->. Qed.

(** Reads the events added to [st_trace s] off a state built from [s]. *)
Ltac trace_split :=
  cbn [st_trace emit note];
  repeat first [apply trace_here | apply trace_more].

Lemma screenshot_iff_attempt_failed_aux w job_url s :
  ∃ evs, st_trace (extract_job_details w job_url s).2 = evs ++ st_trace s
         ∧ count_events is_screenshot evs
           = if attempt_failed w (st_tick s) job_url then 1%nat else 0%nat.
Proof.
  unfold extract_job_details, try_except_Exception, attempt_failed, extraction_error.
  run_step. unfold goto at 1. run_step.
  destruct (w_goto w (st_tick s) job_url) as [e|].
  { destruct (exn_cls e);
      [rewrite handler_run; unfold after_screenshot; cbn [st_tick emit note];
       destruct (w_screenshot _ _ _)|..];
      (eexists; split; [trace_split|reflexivity]). }
  unfold sleep at 1. run_step.
  destruct (w_sleep w (S (st_tick s))) as [e|].
  { destruct (exn_cls e);
      [rewrite handler_run; unfold after_screenshot; cbn [st_tick emit note];
       destruct (w_screenshot _ _ _)|..];
      (eexists; split; [trace_split|reflexivity]). }
  rewrite bind_run. unfold try_except at 1, wait_for_selector. rewrite call_run.
  cbn [st_tick emit note].
  destruct (w_wait_for_selector _ _ _); [rewrite say_run|]; repeat run_step;
    (eexists; split; [trace_split|reflexivity]).
Qed.

(** X2. [extract_job_details] asks for a screenshot exactly when the
    attempt ended with an error of class [Exception], and then for one:
    none after a page that was read, none when an interruption passes
    through. *)
Theorem screenshot_iff_attempt_failed (w : world) (job_url : pystr) (s : state) :
  ∃ evs, st_trace (extract_job_details w job_url s).2 = evs ++ st_trace s
         ∧ count_events is_screenshot evs
           = if attempt_failed w (st_tick s) job_url then 1%nat else 0%nat.
Proof. apply screenshot_iff_attempt_failed_aux. Qed.

(** X3. Once navigation and the settling sleep went through, nothing the
    page does can fail the extraction: whatever the landmark wait, the
    nine field queries and the tag query answer or raise,
    [extract_job_details] returns a record without an [error] key that
    holds the eleven keys of the dictionary literal. *)
Theorem extraction_survives_page_errors (w : world) (job_url : pystr) (s : state) :
  w_goto w (st_tick s) job_url = None →
  w_sleep w (S (st_tick s)) = None →
  ∃ job, (extract_job_details w job_url s).1 = Return job
         ∧ job !! "error" = None
         ∧ Forall (λ key, is_Some (job !! key)) literal_keys.
Proof.
  intros Hgoto Hsleep. rewrite extract_job_details_outcome.
  unfold extraction_outcome, extraction_error. rewrite Hgoto, Hsleep.
  eexists. split; [reflexivity|]. unfold scraped_record. split.
  - by rewrite with_tags_lookup_ne.
  - unfold literal_keys. repeat constructor; by rewrite with_tags_lookup_ne.
Qed.

Lemma extraction_survives_page_errors_witness :
  ∃ job, (extract_job_details world_unreadable url1 init_state).1 = Return job
         ∧ job !! "error" = None
         ∧ Forall (λ key, is_Some (job !! key)) literal_keys.
Proof.
  apply (extraction_survives_page_errors world_unreadable url1 init_state); reflexivity.
Defined.

(** X4. An error that is not of class [Exception] (an interruption)
    which navigation or the settling sleep raises leaves
    [extract_job_details] as it is: no record is returned for it and no
    screenshot is asked for. *)
Theorem interruption_passes_through (w : world) (job_url : pystr) (s : state)
    (e : exn) (t' : nat) :
  extraction_error w (st_tick s) job_url = Some (e, t') →
  exn_cls e ≠ ExceptionClass →
  (extract_job_details w job_url s).1 = Raise e
  ∧ ∃ evs, st_trace (extract_job_details w job_url s).2 = evs ++ st_trace s
           ∧ count_events is_screenshot evs = 0%nat.
Proof.
  intros Herr Hcls. split.
  - rewrite extract_job_details_outcome. unfold extraction_outcome. rewrite Herr.
    by destruct (exn_cls e).
  - destruct (screenshot_iff_attempt_failed_aux w job_url s) as (evs & Htr & Hcount).
    exists evs. split; [done|]. rewrite Hcount. unfold attempt_failed. rewrite Herr.
    by destruct (exn_cls e).
Qed.

Lemma interruption_passes_through_witness :
  (extract_job_details world_interrupted url1 (State 20 [] true true)).1
  = Raise keyboard_interrupt
  ∧ ∃ evs, st_trace (extract_job_details world_interrupted url1 (State 20 [] true true)).2
           = evs ++ []
           ∧ count_events is_screenshot evs = 0%nat.
Proof.
  apply (interruption_passes_through world_interrupted url1 (State 20 [] true true)
           keyboard_interrupt 22); [reflexivity|discriminate].
Defined.

(** ** More on the tabular export *)

(** X5. The export does not tell a missing field from an empty one: a
    record without the key [k] gives the same row as the record with [k]
    set to the empty string. *)
Theorem csv_absent_field_reads_empty (fieldnames : list string) (job : record) (k : string) :
  job !! k = None →
  k ∈ fieldnames →
  dict_to_list fieldnames (<[k := VStr []]> job) = dict_to_list fieldnames job.
Proof.
  intros Hk Hin. unfold dict_to_list.
  assert (Hrow : (λ key, default (VStr []) (<[k := VStr []]> job !! key)) <$> fieldnames
                 = (λ key, default (VStr []) (job !! key)) <$> fieldnames).
  { apply list_fmap_ext. intros _ key _.
    destruct (decide (k = key)) as [<-|Hne].
    - by rewrite lookup_insert_eq, Hk.
    - by rewrite lookup_insert_ne. }
  rewrite Hrow, dom_insert_L.
  destruct (decide (dom job ⊆ list_to_set fieldnames)) as [Hsub|Hsub].
  - rewrite decide_True; [done|]. apply union_least; [|done].
    apply singleton_subseteq_l. by apply elem_of_list_to_set.
  - rewrite decide_False; [done|]. intros Hsub'. apply Hsub.
    etrans; [|exact Hsub']. apply union_subseteq_r.
Qed.

Lemma csv_absent_field_reads_empty_witness :
  dict_to_list ["title"; "url"] (<["title" := VStr []]> {[ "url" := VStr url1 ]})
  = dict_to_list ["title"; "url"] {[ "url" := VStr url1 ]}.
Proof.
  apply csv_absent_field_reads_empty; [reflexivity|]. apply list_elem_of_here.
Defined.

(** X6. The header does not depend on the order of the records, nor on
    how often a record occurs: two lists with the same records give the
    same header. *)
Theorem fieldnames_order_independent (jobs jobs' : list record) :
  (∀ job, job ∈ jobs ↔ job ∈ jobs') →
  fieldnames_of jobs = fieldnames_of jobs'.
Proof.
  intros Hsame.
  apply (StronglySorted_unique String.le); [apply fieldnames_of_sorted..|].
  apply NoDup_Permutation; [apply fieldnames_of_NoDup..|].
  intros k. rewrite !elem_of_fieldnames_of.
  split; intros (job & Hin & Hk); exists job; (split; [by apply Hsame|done]).
Qed.

Lemma fieldnames_order_independent_witness :
  fieldnames_of two_records = fieldnames_of (reverse two_records ++ two_records).
Proof.
  apply fieldnames_order_independent. intros job.
  rewrite elem_of_app, elem_of_reverse. tauto.
Defined.

(** ** The name of the screenshot *)

Lemma digits_fuel_app fuel n acc :
  digits_fuel fuel n acc = digits_fuel fuel n [] ++ acc.
Proof.
  revert n acc. induction fuel as [|fuel IH]; intros n acc; simpl; [done|].
  destruct (n <? 10); [done|].
  rewrite (IH _ (digit n :: acc)), (IH _ [digit n]). by rewrite <- app_assoc.
Qed.

Lemma undecimal_snoc s c : undecimal (s ++ [c]) = 10 * undecimal s + (c - 48).
Proof. unfold undecimal. by rewrite foldl_app. Qed.

Lemma undecimal_digits fuel n :
  n < 10 ^ N.of_nat fuel → undecimal (digits_fuel fuel n []) = n.
Proof.
  revert n. induction fuel as [|fuel IH]; intros n Hn.
  - simpl in *. assert (n = 0) as -> by lia. done.
  - simpl digits_fuel. destruct (N.ltb_spec n 10) as [Hlt|Hge].
    + unfold undecimal, digit. simpl.
      rewrite N.mod_small by done. lia.
    + rewrite digits_fuel_app, undecimal_snoc, IH.
      * unfold digit. pose proof (N.div_mod n 10 ltac:(done)) as Hdm.
        revert Hdm. generalize (n / 10) (n mod 10). intros q r Hdm. lia.
      * rewrite Nat2N.inj_succ, N.pow_succ_r' in Hn.
        apply N.Div0.div_lt_upper_bound. lia.
Qed.

Lemma pos_lt_pow10 p : N.pos p < 10 ^ N.of_nat (Pos.size_nat p).
Proof.
  induction p as [p IH|p IH|]; simpl Pos.size_nat;
    rewrite ?Nat2N.inj_succ, ?N.pow_succ_r'; [| |done].
  - change (N.pos p~1) with (2 * N.pos p + 1). lia.
  - change (N.pos p~0) with (2 * N.pos p). lia.
Qed.

Lemma undecimal_decimal n : undecimal (decimal n) = n.
Proof.
  unfold decimal. apply undecimal_digits.
  rewrite Nat2N.inj_succ, N.pow_succ_r'. destruct n as [|p]; [done|].
  pose proof (pos_lt_pow10 p). simpl N.size_nat. lia.
Qed.

(** X7. The name of the error screenshot tells the second of the clock
    apart and nothing else: two failed extractions write the same file
    exactly when the clock read the same second for both. *)
Theorem screenshot_path_same_second (t t' : N) :
  screenshot_path t = screenshot_path t' ↔ t = t'.
Proof.
  split; [|by intros ->]. unfold screenshot_path. intros Hpath.
  apply app_inv_head, app_inv_tail in Hpath.
  by rewrite <- (undecimal_decimal t), Hpath, undecimal_decimal.
Qed.

(** ** More on the login check *)

Lemma count_events_app p evs1 evs2 :
  count_events p (evs1 ++ evs2) = (count_events p evs1 + count_events p evs2)%nat.
Proof. unfold count_events. by rewrite List.filter_app, length_app. Qed.

Lemma count_events_cons p ev evs :
  count_events p (ev :: evs) = ((if p ev then 1 else 0) + count_events p evs)%nat.
Proof. unfold count_events. simpl. by destruct (p ev). Qed.

Lemma count_events_nil p : count_events p [] = 0%nat.
Proof. reflexivity. Qed.

Lemma slept_app evs1 evs2 : slept (evs1 ++ evs2) = (slept evs1 + slept evs2)%nat.
Proof.
  induction evs1 as [|ev evs1 IH]; [done|].
  destruct ev; simpl; rewrite IH; lia.
Qed.

Global Arguments count_events : simpl never.

Ltac counts_norm :=
  repeat first [ rewrite count_events_app | rewrite count_events_cons
               | rewrite count_events_nil | rewrite slept_app | progress simpl ].

Lemma probe_indicators_within w indicators s :
  ∃ evs, st_trace (probe_indicators w indicators s).2 = evs ++ st_trace s
         ∧ within evs (length indicators) 0 0 0.
Proof.
  revert s. induction indicators as [|indicator rest IH]; intros s; simpl.
  - exists []. unfold within. by counts_norm.
  - rewrite bind_run. unfold try_except, query_selector.
    destruct (w_query_selector w (st_tick s) indicator) as [[el|]|e]; simpl.
    + eexists [_]. split; [done|]. unfold within. counts_norm. lia.
    + destruct (IH (emit (EvQuery indicator false) s)) as (evs & -> & H1 & H2 & H3 & H4).
      exists (evs ++ [EvQuery indicator false]). split; [by rewrite <- app_assoc|].
      unfold within. counts_norm. lia.
    + destruct (IH (emit (EvQuery indicator false) s)) as (evs & -> & H1 & H2 & H3 & H4).
      exists (evs ++ [EvQuery indicator false]). split; [by rewrite <- app_assoc|].
      unfold within. counts_norm. lia.
Qed.

Lemma poll_login_within w n s :
  ∃ evs, st_trace (poll_login w n s).2 = evs ++ st_trace s
         ∧ within evs (3 * n) n 0 (5 * n).
Proof.
  revert s. induction n as [|n IH]; intros s.
  - eexists [_]. split; [done|]. unfold within. counts_norm. lia.
  - rewrite poll_login_S, bind_run. unfold sleep at 1. rewrite call_run.
    destruct (w_sleep w (st_tick s)) as [e|].
    { eexists [_]. split; [done|]. unfold within. counts_norm. lia. }
    rewrite bind_run.
    destruct (probe_indicators_within w login_indicators (emit (EvSleep 5) s))
      as (evs1 & Htr1 & H1 & H2 & H3 & H4).
    destruct (probe_indicators_spec w login_indicators (emit (EvSleep 5) s))
      as (evs0 & _ & Hr1 & _).
    destruct (probe_indicators w login_indicators (emit (EvSleep 5) s)) as [r1 s2].
    simpl in Htr1, Hr1. subst r1. change (length login_indicators) with 3%nat in H1.
    destruct (existsb is_match _).
    + rewrite bind_run, say_run.
      exists (EvSay MsgLoginOk :: evs1 ++ [EvSleep 5]). split.
      { simpl. rewrite Htr1. by list_norm. }
      unfold within. counts_norm. lia.
    + rewrite bind_run, say_run.
      destruct (IH (note MsgWaitingLogin s2)) as (evs & Htr & H5 & H6 & H7 & H8).
      exists (evs ++ EvSay MsgWaitingLogin :: evs1 ++ [EvSleep 5]). split.
      { rewrite Htr. simpl. rewrite Htr1. by list_norm. }
      unfold within. counts_norm. lia.
Qed.

(** X8. The login check is bounded, whatever the browser and the operator
    do: at most 183 probes of an indicator, at most 60 polling rounds, at
    most one prompt of the operator and at most 303 seconds of sleep. *)
Theorem login_check_bounded (w : world) (s : state) :
  ∃ evs, st_trace (ensure_logged_in w s).2 = evs ++ st_trace s
         ∧ (count_events is_probe evs ≤ 183)%nat
         ∧ (count_events is_poll evs ≤ 60)%nat
         ∧ (count_events is_prompt evs ≤ 1)%nat
         ∧ (slept evs ≤ 303)%nat.
Proof.
  unfold ensure_logged_in. rewrite bind_run. unfold goto at 1. rewrite call_run.
  destruct (w_goto w (st_tick s) home_url) as [e|].
  { eexists [_]. split; [done|]. counts_norm. lia. }
  rewrite bind_run. unfold sleep at 1. rewrite call_run. cbn [st_tick emit].
  destruct (w_sleep w (S (st_tick s))) as [e|].
  { eexists [_; _]. split; [done|]. counts_norm. lia. }
  rewrite bind_run.
  set (s1 := emit (EvSleep 3) (emit (EvGoto home_url) s)).
  destruct (probe_indicators_within w login_indicators s1)
    as (evs1 & Htr1 & H1 & H2 & H3 & H4).
  destruct (probe_indicators_spec w login_indicators s1) as (evs0 & _ & Hr1 & _).
  destruct (probe_indicators w login_indicators s1) as [r1 s2].
  simpl in Htr1, Hr1. subst r1. change (length login_indicators) with 3%nat in H1.
  destruct (existsb is_match _).
  - rewrite bind_run, say_run.
    exists (EvSay MsgLoggedIn :: evs1 ++ [EvSleep 3; EvGoto home_url]). split.
    { simpl. rewrite Htr1. by list_norm. }
    counts_norm. lia.
  - rewrite bind_run, say_run, bind_run. unfold input. rewrite call_run. cbn [st_tick note].
    destruct (w_input w (st_tick s2)) as [e|].
    { exists (EvInput :: EvSay MsgPleaseLogin :: evs1 ++ [EvSleep 3; EvGoto home_url]).
      split; [simpl; rewrite Htr1; by list_norm|]. counts_norm. lia. }
    destruct (poll_login_within w 60 (emit EvInput (note MsgPleaseLogin s2)))
      as (evs & Htr & H5 & H6 & H7 & H8).
    exists (evs ++ EvInput :: EvSay MsgPleaseLogin :: evs1 ++ [EvSleep 3; EvGoto home_url]).
    split; [rewrite Htr; simpl; rewrite Htr1; by list_norm|]. counts_norm. lia.
Qed.

(** X9. One pass over the login indicators probes them in their order
    and stops at the first one found: either no indicator was found and
    each was probed once, or the pass answers true and the probes made are
    those of the indicators in front of the one found, then that one. *)
Theorem probes_in_order_until_found (w : world) (indicators : list string) (s : state) :
  ∃ evs, st_trace (probe_indicators w indicators s).2 = evs ++ st_trace s
         ∧ (((probe_indicators w indicators s).1 = Return false
             ∧ reverse evs = (λ selector, EvQuery selector false) <$> indicators)
            ∨ ∃ before selector after,
                indicators = before ++ selector :: after
                ∧ (probe_indicators w indicators s).1 = Return true
                ∧ reverse evs
                  = ((λ selector, EvQuery selector false) <$> before)
                    ++ [EvQuery selector true]).
Proof.
  revert s. induction indicators as [|indicator rest IH]; intros s; simpl.
  - exists []. split; [done|]. by left.
  - rewrite bind_run. unfold try_except, query_selector.
    assert (Hmiss : ∀ s1, st_trace s1 = EvQuery indicator false :: st_trace s →
      ∃ evs, st_trace (probe_indicators w rest s1).2 = evs ++ st_trace s
        ∧ (((probe_indicators w rest s1).1 = Return false
            ∧ reverse evs = EvQuery indicator false
                            :: ((λ selector, EvQuery selector false) <$> rest))
           ∨ ∃ before selector after,
               indicator :: rest = before ++ selector :: after
               ∧ (probe_indicators w rest s1).1 = Return true
               ∧ reverse evs
                 = ((λ selector, EvQuery selector false) <$> before)
                   ++ [EvQuery selector true])).
    { intros s1 Hs1. destruct (IH s1) as (evs & Htr & Hcase).
      exists (evs ++ [EvQuery indicator false]).
      split; [by rewrite Htr, Hs1, <- app_assoc|].
      rewrite reverse_app. simpl.
      destruct Hcase as [[Hr Hevs]|(before & selector & after & -> & Hr & Hevs)].
      - left. by rewrite Hevs.
      - right. exists (indicator :: before), selector, after. by rewrite Hevs. }
    destruct (w_query_selector w (st_tick s) indicator) as [[el|]|e]; simpl.
    + eexists [_]. split; [done|]. right. by exists [], indicator, rest.
    + by apply Hmiss.
    + by apply Hmiss.
Qed.

Lemma poll_login_returns w n s :
  (∀ t, w_sleep w t = None) → ∃ b, (poll_login w n s).1 = Return b.
Proof.
  intros Hsleep. revert s. induction n as [|n IH]; intros s; [by exists false|].
  rewrite poll_login_S, bind_run. unfold sleep at 1. rewrite call_run, Hsleep, bind_run.
  destruct (probe_indicators_spec w login_indicators (emit (EvSleep 5) s))
    as (evs & _ & Hr & _).
  destruct (probe_indicators w login_indicators (emit (EvSleep 5) s)) as [r1 s2].
  simpl in Hr. subst r1. destruct (existsb is_match evs).
  - rewrite bind_run, say_run. by exists true.
  - rewrite bind_run, say_run. apply IH.
Qed.

(** X10. A probe of a login indicator that raises is never passed on:
    when navigation to the home page, the sleeps and the prompt go
    through, [ensure_logged_in] returns a boolean whatever the probes
    answer or raise. *)
Theorem login_check_absorbs_probe_errors (w : world) (s : state) :
  w_goto w (st_tick s) home_url = None →
  (∀ t, w_sleep w t = None) →
  (∀ t, w_input w t = None) →
  ∃ b, (ensure_logged_in w s).1 = Return b.
Proof.
  intros Hgoto Hsleep Hinput. unfold ensure_logged_in.
  rewrite bind_run. unfold goto at 1. rewrite call_run, Hgoto.
  rewrite bind_run. unfold sleep at 1. rewrite call_run, Hsleep, bind_run.
  destruct (probe_indicators_spec w login_indicators
              (emit (EvSleep 3) (emit (EvGoto home_url) s))) as (evs & _ & Hr & _).
  destruct (probe_indicators w login_indicators _) as [r1 s2].
  simpl in Hr. subst r1. destruct (existsb is_match evs).
  - rewrite bind_run, say_run. by exists true.
  - rewrite bind_run, say_run, bind_run. unfold input. rewrite call_run, Hinput.
    by apply poll_login_returns.
Qed.

Lemma login_check_absorbs_probe_errors_witness :
  ∃ b, (ensure_logged_in world_unreadable init_state).1 = Return b.
Proof.
  apply (login_check_absorbs_probe_errors world_unreadable init_state); reflexivity.
Defined.

(** ** The phases of a run *)

(** As [emits], with the side conditions on the events left to [tac]. *)
Ltac emits_by tac :=
  repeat lazymatch goal with
    | |- emits_only _ (_extract_text _ _) =>
        apply emits_only__extract_text; intros ?; tac
    | |- emits_only _ (_extract_tags _) => apply emits_only__extract_tags; tac
    | |- emits_only _ (query_selector _ _) =>
        apply emits_only_query_selector; intros ?; tac
    | |- emits_only _ (datetime_now _) => apply emits_only_datetime_now; tac
    | |- emits_only _ (time_time _) => apply emits_only_time_time; tac
    | |- emits_only _ (say _) => apply emits_only_say; tac
    | |- emits_only _ (call _ _) => apply emits_only_call; tac
    | |- emits_only _ (mret _) => apply emits_only_ret
    | |- emits_only _ (lift _) => apply emits_only_lift
    | |- emits_only _ (try_except_Exception _ _) =>
        apply emits_only_try_except_Exception; [|intros ?]
    | |- emits_only _ (try_except _ _) => apply emits_only_try_except; [|intros ?]
    | |- emits_only _ (_ ≫= _) => apply emits_only_bind; [|intros ?]
    | |- emits_only _ (match ?x with _ => _ end) => destruct x
    end.

Ltac visit_ok := split; [reflexivity|simpl; first [done | set_solver]].

Lemma extract_job_details_visits w job_url allowed :
  job_url ∈ allowed →
  emits_only (λ ev, extract_event ev = true ∧ visits allowed ev)
    (extract_job_details w job_url).
Proof.
  intros Hin. unfold extract_job_details, goto, sleep, wait_for_selector, screenshot.
  emits_by visit_ok.
Qed.

Lemma probe_indicators_visits w indicators :
  emits_only (λ ev, login_event ev = true ∧ visits [home_url] ev)
    (probe_indicators w indicators).
Proof. induction indicators as [|indicator rest IH]; simpl; emits_by visit_ok; apply IH. Qed.

Lemma poll_login_visits w n :
  emits_only (λ ev, login_event ev = true ∧ visits [home_url] ev) (poll_login w n).
Proof.
  induction n as [|n IH]; simpl; unfold sleep; emits_by visit_ok;
    first [apply probe_indicators_visits | apply IH].
Qed.

Lemma ensure_logged_in_visits w :
  emits_only (λ ev, login_event ev = true ∧ visits [home_url] ev) (ensure_logged_in w).
Proof.
  unfold ensure_logged_in, goto, sleep, input. emits_by visit_ok;
    first [apply probe_indicators_visits | apply poll_login_visits].
Qed.

Lemma main_loop_phase w total i links all_job_details allowed s r s' :
  (∀ job_url, job_url ∈ links → job_url ∈ allowed) →
  main_loop w total i links all_job_details s = (r, s') →
  ∃ evs, st_trace s' = evs ++ st_trace s
         ∧ Forall (λ ev, extract_event ev = true ∧ visits allowed ev) evs
         ∧ st_browser s' = st_browser s
         ∧ st_playwright s' = st_playwright s
         ∧ ∀ all', r = Return all' →
             ∃ records, all' = all_job_details ++ records
                        ∧ Forall2 (λ job_url job, job !! "url" = Some (VStr job_url))
                            links records.
Proof.
  revert i all_job_details s.
  induction links as [|job_url rest IH]; intros i all_job_details s Hallowed.
  - intros [= <- <-]. exists []. split_and!; [done..|]. intros all' [= <-]. exists [].
    by rewrite app_nil_r.
  - cbn [main_loop]. rewrite bind_run, say_run, bind_run.
    set (s0 := note (MsgProgressItem i total job_url) s).
    pose proof (extract_job_details_outcome w job_url s0) as Hout.
    destruct (extract_job_details_visits w job_url allowed
                (Hallowed _ (list_elem_of_here _ _)) s0) as (evs1 & Htr1 & Hev1 & Hb1 & Hp1).
    destruct (extract_job_details w job_url s0) as [[job|e] s1]; simpl in Hout, Htr1, Hb1, Hp1.
    2:{ intros [= <- <-]. exists (evs1 ++ [EvSay (MsgProgressItem i total job_url)]).
        rewrite Htr1, <- app_assoc. split_and!; [done| |done..].
        apply Forall_app. split; [done|]. by repeat constructor. }
    rewrite bind_run.
    assert (∃ s2 evs2, (match job !! "title" with
                        | Some v => say (MsgProgressTitle v)
                        | None => mret ()
                        end) s1 = (Return tt, s2)
                       ∧ st_trace s2 = evs2 ++ st_trace s1
                       ∧ Forall (λ ev, extract_event ev = true ∧ visits allowed ev) evs2
                       ∧ st_browser s2 = st_browser s1
                       ∧ st_playwright s2 = st_playwright s1)
      as (s2 & evs2 & -> & Htr2 & Hev2 & Hb2 & Hp2).
    { destruct (job !! "title").
      - eexists _, [_]. split_and!; [done..| |done|done]. by repeat constructor.
      - by eexists _, []. }
    rewrite bind_run.
    assert (∃ s3 evs3, (match job !! "error" with
                        | Some v => say (MsgProgressError v)
                        | None => mret ()
                        end) s2 = (Return tt, s3)
                       ∧ st_trace s3 = evs3 ++ st_trace s2
                       ∧ Forall (λ ev, extract_event ev = true ∧ visits allowed ev) evs3
                       ∧ st_browser s3 = st_browser s2
                       ∧ st_playwright s3 = st_playwright s2)
      as (s3 & evs3 & -> & Htr3 & Hev3 & Hb3 & Hp3).
    { destruct (job !! "error").
      - eexists _, [_]. split_and!; [done..| |done|done]. by repeat constructor.
      - by eexists _, []. }
    rewrite bind_run. unfold sleep at 1. rewrite call_run.
    assert (Hpre : st_trace (emit (EvSleep 2) s3)
                   = (EvSleep 2 :: evs3 ++ evs2 ++ evs1
                      ++ [EvSay (MsgProgressItem i total job_url)]) ++ st_trace s).
    { simpl. rewrite Htr3, Htr2, Htr1. simpl. by rewrite <- !app_assoc. }
    assert (Hevs : Forall (λ ev, extract_event ev = true ∧ visits allowed ev)
                     (EvSleep 2 :: evs3 ++ evs2 ++ evs1
                      ++ [EvSay (MsgProgressItem i total job_url)])).
    { constructor; [done|]. rewrite !Forall_app. split_and!; [done..|].
      by repeat constructor. }
    destruct (w_sleep w (st_tick s3)) as [e|].
    { intros [= <- <-].
      eexists. split_and!; [exact Hpre|exact Hevs|simpl; congruence..|done]. }
    intros Hrun.
    destruct (IH (S i) (all_job_details ++ [job]) (emit (EvSleep 2) s3))
      as (evs & Htr & Hev & Hb & Hp & Hret); [|exact Hrun|].
    { intros u Hu. apply Hallowed. by right. }
    eexists (evs ++ _). split_and!.
    + rewrite Htr, Hpre. by rewrite <- app_assoc.
    + by apply Forall_app.
    + rewrite Hb. simpl. congruence.
    + rewrite Hp. simpl. congruence.
    + intros all' Hall'. destruct (Hret all' Hall') as (records & -> & Hrecords).
      exists (job :: records). rewrite <- app_assoc. split; [done|].
      constructor; [|done]. by eapply extraction_outcome_url.
Qed.

Lemma save_results_phase w c all :
  emits_only (save_of (lower (output_format c)) all) (save_results w c all).
Proof.
  unfold save_results. apply emits_only_bind; [by apply emits_only_datetime_now|].
  intros now. destruct (decide (lower (output_format c) = "json")) as [Hjson|Hjson].
  { emits_by ltac:(simpl; auto). }
  destruct (decide (lower (output_format c) = "csv")) as [Hcsv|Hcsv].
  2:{ apply emits_only_ret. }
  apply emits_only_bind; [apply emits_only_call; simpl; auto|]. intros _.
  rewrite write_rows_returns
    by (intros job k Hin Hk; apply elem_of_fieldnames_of; eauto).
  match goal with
  | |- emits_only ?P (lift (Return ?rows) ≫= ?k) => change (emits_only P (k rows))
  end.
  cbv beta. emits_by ltac:(simpl; auto).
Qed.

Lemma start_phase w s r s' :
  st_browser s = false → st_playwright s = false →
  start w s = (r, s') →
  ∃ evs, st_trace s' = evs ++ st_trace s
         ∧ Forall (λ ev, start_event ev = true) evs
         ∧ (r = Return tt → evs = started_events w (st_tick s) ∧ st_browser s' = true)
         ∧ (st_browser s' = true → st_playwright s' = true).
Proof.
  intros Hb Hp. unfold start, makedirs, set_playwright, set_browser, pages, started_events.
  repeat (rewrite bind_run, ?call_run; cbn [st_tick emit note]).
  destruct (w_driver w (st_tick s)).
  { intros [= <- <-]. eexists. split_and!; [trace_split|by repeat constructor|done|simpl; congruence]. }
  destruct (w_fs w _ _).
  { intros [= <- <-]. eexists. split_and!; [trace_split|by repeat constructor|done|simpl; congruence]. }
  destruct (w_driver w _).
  { intros [= <- <-]. eexists. split_and!; [trace_split|by repeat constructor|done|simpl; congruence]. }
  cbn [plus]. destruct (w_pages w _).
  - rewrite mret_run. intros [= <- <-].
    eexists. split_and!; [trace_split|by repeat constructor|done|done].
  - rewrite call_run. cbn [st_tick].
    destruct (w_driver w _); intros [= <- <-];
      (eexists; split_and!; [trace_split|by repeat constructor|done|done]).
Qed.

Lemma close_phase w s r s' :
  close w s = (r, s') →
  ∃ evs, st_trace s' = evs ++ st_trace s
         ∧ Forall (λ ev, close_event ev = true) evs
         ∧ st_browser s' = st_browser s
         ∧ st_playwright s' = st_playwright s.
Proof.
  unfold close. rewrite bind_run. cbv beta.
  destruct (st_browser s) eqn:Hb.
  - rewrite call_run. destruct (w_close w (st_tick s)).
    { intros [= <- <-]. eexists. split_and!; [trace_split|by repeat constructor|done..]. }
    rewrite bind_run. cbv beta. cbn [st_playwright emit].
    destruct (st_playwright s) eqn:Hp.
    + rewrite call_run. destruct (w_close w _); intros [= <- <-];
        (eexists; split_and!; [trace_split|by repeat constructor|done..]).
    + intros [= <- <-]. eexists. split_and!; [trace_split|by repeat constructor|done..].
  - change ((mret () : M ()) s) with (Return (), s). cbv beta iota.
    rewrite bind_run. cbv beta.
    destruct (st_playwright s) eqn:Hp.
    + rewrite call_run. destruct (w_close w _); intros [= <- <-];
        (eexists; split_and!; [trace_split|by repeat constructor|done..]).
    + intros [= <- <-]. eexists. split_and!; [trace_split|by repeat constructor|done..].
Qed.

Ltac phase_forall :=
  first [ assumption
        | by constructor
        | by (eapply Forall_impl; [eassumption|]; intros ? ?; left)
        | by (apply Forall_app; split;
              [ eapply Forall_impl; [eassumption|]; intros ? ?; left
              | repeat constructor; right ]) ].

Lemma main_phases w c r s' :
  job_links c ≠ [] →
  main w (Some c) init_state = (r, s') →
  ∃ evs_start evs_login evs_loop evs_save evs_end all,
    run_phases w c s' evs_start evs_login evs_loop evs_save evs_end all.
Proof.
  intros Hlinks. unfold main.
  destruct (job_links c) as [|u links] eqn:Hl; [done|]. rewrite <- Hl. clear Hlinks.
  set (all0 := (λ job_url, ({["url" := VStr job_url]} : record)) <$> job_links c).
  assert (Hall0 : Forall2 (λ job_url (job : record), job !! "url" = Some (VStr job_url))
                    (job_links c) all0).
  { apply Forall2_fmap_r, Forall_Forall2_diag, Forall_forall.
    intros job_url _. apply lookup_singleton_eq. }
  rewrite bind_run. unfold makedirs at 1. rewrite call_run.
  destruct (w_fs w _ _).
  { intros [= <- <-]. exists [], [], [], [], [], all0. unfold run_phases.
    split_and!; try phase_forall; done. }
  rewrite bind_run. unfold new_crawler at 1.
  match goal with |- context [(start w ≫= _) ?st] => set (s1 := st) end.
  rewrite bind_run.
  destruct (start w s1) as [r2 s2] eqn:Hstart.
  destruct (start_phase w s1 r2 s2 eq_refl eq_refl Hstart)
    as (evs2 & Htr2 & Hev2 & Hret2 & Hbp2).
  destruct r2 as [[]|e].
  2:{ intros [= <- <-]. exists evs2, [], [], [], [], all0. unfold run_phases.
      split_and!; try phase_forall; done. }
  destruct (Hret2 eq_refl) as [-> Hb2]. pose proof (Hbp2 Hb2) as Hp2.
  rewrite bind_run.
  destruct (ensure_logged_in_visits w s2) as (evs3 & Htr3 & Hev3 & Hb3 & Hp3).
  destruct (ensure_logged_in w s2) as [r3 s3]. simpl in Htr3, Hb3, Hp3.
  assert (Htr3' : st_trace s3 = evs3 ++ started_events w 1 ++ [EvMakedirs (output_dir c)])
    by (by rewrite Htr3, Htr2).
  destruct r3 as [[]|e]; cbn [negb].
  - rewrite bind_run.
    destruct (main_loop w (length (job_links c)) 1 (job_links c) [] s3)
      as [r4 s4] eqn:Hloop.
    destruct (main_loop_phase _ _ _ _ _ (job_links c) _ _ _ (λ _ H, H) Hloop)
      as (evs4 & Htr4 & Hev4 & Hb4 & Hp4 & Hret4).
    destruct r4 as [all|e].
    2:{ intros [= <- <-]. exists (started_events w 1), evs3, evs4, [], [], all0.
        unfold run_phases. split_and!; try phase_forall; try done.
        - by rewrite Htr4, Htr3'.
        - congruence. }
    destruct (Hret4 all eq_refl) as (records & -> & Hrecords). simpl in *.
    rewrite bind_run.
    destruct (save_results_phase w c records s4) as (evs5 & Htr5 & Hev5 & Hb5 & Hp5).
    destruct (save_results w c records s4) as [[[]|e] s5]; simpl in Htr5, Hb5, Hp5.
    2:{ intros [= <- <-]. exists (started_events w 1), evs3, evs4, evs5, [], records.
        unfold run_phases. split_and!; try phase_forall; try done.
        - by rewrite Htr5, Htr4, Htr3'.
        - congruence. }
    rewrite bind_run, say_run. intros Hclose.
    destruct (close_phase _ _ _ _ Hclose) as (evs6 & Htr6 & Hev6 & Hb6 & Hp6).
    simpl in Htr6, Hb6, Hp6.
    exists (started_events w 1), evs3, evs4, evs5,
      (evs6 ++ [EvSay (MsgSummary (success_count records)
                         (length records - success_count records))]), records.
    unfold run_phases. split_and!; try phase_forall; try done.
    + by rewrite Htr6, Htr5, Htr4, Htr3', <- !app_assoc.
    + congruence.
  - intros Hclose.
    destruct (close_phase _ _ _ _ Hclose) as (evs6 & Htr6 & Hev6 & Hb6 & Hp6).
    exists (started_events w 1), evs3, [], [], evs6, all0.
    unfold run_phases. split_and!; try phase_forall; try done.
    + by rewrite Htr6, Htr3'.
    + congruence.
  - intros [= <- <-]. exists (started_events w 1), evs3, [], [], [], all0.
    unfold run_phases. split_and!; try phase_forall; try done. congruence.
Qed.

Lemma elem_of_phases (ev : event) (tr evs_start evs_login evs_loop evs_save evs_end : list event)
    (first : event) :
  tr = evs_end ++ evs_save ++ evs_loop ++ evs_login ++ evs_start ++ [first] →
  ev ∈ tr →
  ev ∈ evs_end ∨ ev ∈ evs_save ∨ ev ∈ evs_loop ∨ ev ∈ evs_login ∨ ev ∈ evs_start ∨ ev = first.
Proof.
  intros ->. rewrite !elem_of_app, list_elem_of_singleton. tauto.
Qed.

Lemma main_without_links w c s :
  job_links c = [] → main w (Some c) s = (Return tt, note MsgNoJobLinks s).
Proof. intros Hl. unfold main. by rewrite Hl. Qed.

(** X11. A run of [main] only ever navigates to the home page of the site
    and to the links of the configuration. *)
Theorem main_visits_only_configured_links (w : world) (c : config) (r : outcome unit)
    (s' : state) (url : pystr) :
  main w (Some c) init_state = (r, s') →
  EvGoto url ∈ st_trace s' →
  url = home_url ∨ url ∈ job_links c.
Proof.
  intros Hmain Hin. destruct (decide (job_links c = [])) as [Hl|Hl].
  { rewrite (main_without_links _ _ _ Hl) in Hmain. simplify_eq/=.
    by apply list_elem_of_singleton in Hin. }
  destruct (main_phases w c r s' Hl Hmain)
    as (evs_start & evs_login & evs_loop & evs_save & evs_end & all
        & Htr & Hstart & Hlogin & Hloop & Hsave & Hend & _).
  destruct (elem_of_phases _ _ _ _ _ _ _ _ Htr Hin) as [H|[H|[H|[H|[H|H]]]]].
  - apply (proj1 (Forall_forall _ _) Hend) in H as [H|H]; done.
  - by apply (proj1 (Forall_forall _ _) Hsave) in H.
  - apply (proj1 (Forall_forall _ _) Hloop) in H as [_ H]. by right.
  - apply (proj1 (Forall_forall _ _) Hlogin) in H as [_ H]. left.
    by apply list_elem_of_singleton in H.
  - by apply (proj1 (Forall_forall _ _) Hstart) in H.
  - done.
Qed.

Lemma main_visits_only_configured_links_witness :
  url1 = home_url ∨ url1 ∈ job_links one_link.
Proof.
  apply (main_visits_only_configured_links world_healthy one_link
           (main world_healthy (Some one_link) init_state).1
           (main world_healthy (Some one_link) init_state).2 url1).
  - vm_compute. reflexivity.
  - apply (list_elem_of_lookup_2 _ 24). vm_compute. reflexivity.
Defined.

Lemma existsb_Forall_Prop (p : event → bool) (P : event → Prop) evs :
  (∀ ev, P ev → p ev = false) → Forall P evs → existsb p evs = false.
Proof.
  intros HP. induction 1 as [|ev evs Hev _ IH]; simpl; [done|].
  by rewrite (HP _ Hev), IH.
Qed.

(** X12. The page is only driven once [start] went through: when the
    trace of a run holds a navigation, a query, a landmark wait or a
    screenshot, it begins with the creation of the output directory and
    the calls of a [start] that went through, in their order: the driver
    is started, the profile directory under the home of the user is
    created, the browser is launched on that directory, and a page is
    opened when the launched context has none.  No call of [start] is
    made after these. *)
Theorem page_driven_only_after_start (w : world) (c : config) (r : outcome unit)
    (s' : state) :
  main w (Some c) init_state = (r, s') →
  existsb uses_page (st_trace s') = true →
  ∃ later, st_trace s' = later ++ started_events w 1 ++ [EvMakedirs (output_dir c)]
           ∧ Forall (λ ev, start_event ev = false) later.
Proof.
  intros Hmain Hpage. destruct (decide (job_links c = [])) as [Hl|Hl].
  { rewrite (main_without_links _ _ _ Hl) in Hmain. by simplify_eq/=. }
  destruct (main_phases w c r s' Hl Hmain)
    as (evs_start & evs_login & evs_loop & evs_save & evs_end & all
        & Htr & Hstart & Hlogin & Hloop & Hsave & Hend & _ & Hstarted & _).
  destruct (decide (evs_end ++ evs_save ++ evs_loop ++ evs_login = [])) as [Hnone|Hsome].
  - exfalso. apply app_eq_nil in Hnone as [-> Hnone].
    apply app_eq_nil in Hnone as [-> Hnone]. apply app_eq_nil in Hnone as [-> ->].
    rewrite Htr in Hpage. simpl in Hpage. rewrite existsb_app in Hpage.
    rewrite (existsb_Forall_false uses_page start_event evs_start) in Hpage;
      [done|by intros []|done].
  - rewrite (Hstarted Hsome) in Htr.
    exists (evs_end ++ evs_save ++ evs_loop ++ evs_login). split.
    { by rewrite Htr, <- !app_assoc. }
    rewrite !Forall_app. split_and!.
    + eapply Forall_impl; [exact Hend|]. intros ev [Hc| ->]; [|done]. by destruct ev.
    + eapply Forall_impl; [exact Hsave|]. intros ev Hev. by destruct ev.
    + eapply Forall_impl; [exact Hloop|]. intros ev [Hev _]. by destruct ev.
    + eapply Forall_impl; [exact Hlogin|]. intros ev [Hev _]. by destruct ev.
Qed.

Lemma page_driven_only_after_start_witness :
  ∃ later, st_trace (main world_healthy (Some one_link) init_state).2
           = later ++ [EvLaunch (lit "/home/crawler/boss_crawler_data");
                       EvMakedirs (lit "/home/crawler/boss_crawler_data");
                       EvPlaywrightStart; EvMakedirs (lit "./job_details")]
           ∧ Forall (λ ev, start_event ev = false) later.
Proof.
  apply (page_driven_only_after_start world_healthy one_link
           (main world_healthy (Some one_link) init_state).1);
    vm_compute; reflexivity.
Defined.

(** X13. The two numbers of a summary that [main] prints add up to the
    number of links of the configuration. *)
Theorem summary_counts_add_up (w : world) (c : config) (r : outcome unit) (s' : state)
    (successes failures : nat) :
  main w (Some c) init_state = (r, s') →
  EvSay (MsgSummary successes failures) ∈ st_trace s' →
  (successes + failures = length (job_links c))%nat.
Proof.
  intros Hmain Hin. destruct (decide (job_links c = [])) as [Hl|Hl].
  { rewrite (main_without_links _ _ _ Hl) in Hmain. simplify_eq/=.
    by apply list_elem_of_singleton in Hin. }
  destruct (main_phases w c r s' Hl Hmain)
    as (evs_start & evs_login & evs_loop & evs_save & evs_end & all
        & Htr & Hstart & Hlogin & Hloop & Hsave & Hend & Hall & _).
  destruct (elem_of_phases _ _ _ _ _ _ _ _ Htr Hin) as [H|[H|[H|[H|[H|H]]]]].
  - apply (proj1 (Forall_forall _ _) Hend) in H as [H|H]; [done|].
    injection H as -> ->. rewrite (Forall2_length _ _ _ Hall).
    assert (success_count all ≤ length all)%nat; [|lia].
    unfold success_count. apply length_filter.
  - by apply (proj1 (Forall_forall _ _) Hsave) in H.
  - by apply (proj1 (Forall_forall _ _) Hloop) in H as [H _].
  - by apply (proj1 (Forall_forall _ _) Hlogin) in H as [H _].
  - by apply (proj1 (Forall_forall _ _) Hstart) in H.
  - done.
Qed.

Lemma summary_counts_add_up_witness : (1 + 0 = length (job_links one_link))%nat.
Proof.
  apply (summary_counts_add_up world_healthy one_link
           (main world_healthy (Some one_link) init_state).1
           (main world_healthy (Some one_link) init_state).2 1 0).
  - vm_compute. reflexivity.
  - apply (list_elem_of_lookup_2 _ 3). vm_compute. reflexivity.
Defined.

Lemma elem_of_save_phase w c r s' (ev : event) :
  job_links c ≠ [] →
  main w (Some c) init_state = (r, s') →
  ev ∈ st_trace s' → is_write ev = true →
  ∃ all, save_of (lower (output_format c)) all ev
         ∧ Forall2 (λ job_url job, job !! "url" = Some (VStr job_url)) (job_links c) all.
Proof.
  intros Hl Hmain Hin Hw.
  destruct (main_phases w c r s' Hl Hmain)
    as (evs_start & evs_login & evs_loop & evs_save & evs_end & all
        & Htr & Hstart & Hlogin & Hloop & Hsave & Hend & Hall & _).
  exists all. split; [|done].
  destruct (elem_of_phases _ _ _ _ _ _ _ _ Htr Hin) as [H|[H|[H|[H|[H|H]]]]].
  - apply (proj1 (Forall_forall _ _) Hend) in H as [H|H]; [|by subst].
    by destruct ev as [| | | | | | | | | | | | | | | | | |[]].
  - by apply (proj1 (Forall_forall _ _) Hsave) in H.
  - apply (proj1 (Forall_forall _ _) Hloop) in H as [H _].
    by destruct ev as [| | | | | | | | | | | | | | | | | |[]].
  - apply (proj1 (Forall_forall _ _) Hlogin) in H as [H _].
    by destruct ev as [| | | | | | | | | | | | | | | | | |[]].
  - apply (proj1 (Forall_forall _ _) Hstart) in H.
    by destruct ev as [| | | | | | | | | | | | | | | | | |[]].
  - by subst.
Qed.

(** X14. What [main] writes holds one entry per link, in the order of
    the links.  The records of a JSON file carry the links as their [url],
    one after the other.  The rows of a CSV file are the rows, under the
    header of the file, of such records, one after the other: the header
    has a column [url], and in that column the rows hold the links, row by
    row in the order of the links; each row has one cell per header.  A
    file of either kind is written for its own format only. *)
Theorem written_file_has_one_entry_per_link (w : world) (c : config) (r : outcome unit)
    (s' : state) :
  main w (Some c) init_state = (r, s') →
  (∀ dir file records, EvWriteJson dir file records ∈ st_trace s' →
     lower (output_format c) = "json"
     ∧ Forall2 (λ job_url job, job !! "url" = Some (VStr job_url)) (job_links c) records)
  ∧ (∀ dir file header rows, EvWriteCsv dir file header rows ∈ st_trace s' →
       lower (output_format c) = "csv"
       ∧ (∃ records,
            Forall2 (λ job_url job, job !! "url" = Some (VStr job_url)) (job_links c) records
            ∧ header = fieldnames_of records
            ∧ rows = row_of header <$> records)
       ∧ (∃ i, header !! i = Some "url"
               ∧ Forall2 (λ job_url row, row !! i = Some (VStr job_url)) (job_links c) rows)
       ∧ Forall (λ row, length row = length header) rows).
Proof.
  intros Hmain. destruct (decide (job_links c = [])) as [Hl|Hl].
  { rewrite (main_without_links _ _ _ Hl) in Hmain. simplify_eq/=.
    split; intros; by match goal with H : _ ∈ [_] |- _ =>
      apply list_elem_of_singleton in H end. }
  split.
  - intros dir file records Hin.
    destruct (elem_of_save_phase w c r s' _ Hl Hmain Hin eq_refl) as (all & [Hfmt ->] & Hall).
    done.
  - intros dir file header rows Hin.
    destruct (elem_of_save_phase w c r s' _ Hl Hmain Hin eq_refl)
      as (all & (Hfmt & -> & ->) & Hall).
    split_and!; [done|by exists all| |].
    + assert (Hurl : "url" ∈ fieldnames_of all).
      { destruct Hall as [|job_url job links all Hjob _]; [done|].
        apply elem_of_fieldnames_of. exists job. split; [left|by rewrite Hjob]. }
      apply list_elem_of_lookup in Hurl as [i Hi]. exists i. split; [done|].
      apply Forall2_fmap_r. eapply Forall2_impl; [exact Hall|].
      intros job_url job Hjob. unfold row_of. simpl.
      rewrite list_lookup_fmap, Hi. simpl. by rewrite Hjob.
    + apply Forall_fmap, Forall_forall. intros job _. unfold row_of. simpl.
      by rewrite length_fmap.
Qed.

Lemma written_file_has_one_entry_per_link_witness :
  let s' := (main world_flaky (Some csv_links) init_state).2 in
  existsb is_csv_write (st_trace s') = true
  ∧ ∀ dir file header rows, EvWriteCsv dir file header rows ∈ st_trace s' →
      ∃ i, header !! i = Some "url"
           ∧ Forall2 (λ job_url row, row !! i = Some (VStr job_url)) [url1; bad_url] rows.
Proof.
  split; [vm_compute; reflexivity|].
  intros dir file header rows Hin.
  destruct (written_file_has_one_entry_per_link world_flaky csv_links
              (main world_flaky (Some csv_links) init_state).1
              (main world_flaky (Some csv_links) init_state).2) as [_ Hcsv].
  { vm_compute. reflexivity. }
  destruct (Hcsv dir file header rows Hin) as (_ & _ & Hcol & _). exact Hcol.
Defined.







(** ** The loop over the links *)

Lemma count_events_none (p q : event → bool) evs :
  (∀ ev, q ev = true → p ev = false) →
  Forall (λ ev, q ev = true) evs → count_events p evs = 0%nat.
Proof.
  intros Hpq. induction 1 as [|ev evs Hev _ IH]; [done|].
  by rewrite count_events_cons, (Hpq _ Hev), IH.
Qed.

Lemma extract_job_details_no_pace w job_url :
  emits_only (λ ev, negb (is_pace ev) = true) (extract_job_details w job_url).
Proof. unfold extract_job_details, goto, sleep, wait_for_selector, screenshot. emits. Qed.

Lemma try_except_Exception_call {A} ev answer (k : unit → M A) (h : exn → M A) s :
  try_except_Exception (call ev answer ≫= k) h s =
  match answer (st_tick s) with
  | None => try_except_Exception (k tt) h (emit ev s)
  | Some e =>
      match exn_cls e with
      | ExceptionClass => h e (emit ev s)
      | _ => (Raise e, emit ev s)
      end
  end.
Proof.
  unfold try_except_Exception. rewrite bind_run, call_run.
  by destruct (answer (st_tick s)).
Qed.

Lemma extract_job_details_goes w job_url s :
  ∃ evs, st_trace (extract_job_details w job_url s).2
         = evs ++ EvGoto job_url :: EvSay (MsgExtractBegin job_url) :: st_trace s.
Proof.
  unfold extract_job_details. rewrite bind_run, say_run.
  unfold goto at 1. rewrite try_except_Exception_call.
  destruct (w_goto w _ job_url) as [e|]; [destruct (exn_cls e)|];
    try (by exists []);
    match goal with
    | |- ∃ evs, st_trace (?m ?st).2 = _ =>
        assert (Hm : emits_only (λ ev, extract_event ev = true) m)
          by (unfold sleep, wait_for_selector, screenshot; emits);
        destruct (Hm st) as (evs & Htr & _); exists evs; by rewrite Htr
    end.
Qed.

Lemma extract_job_details_round w job_url s :
  ∃ evs, st_trace (extract_job_details w job_url s).2 = evs ++ st_trace s
         ∧ count_events is_pace evs = 0%nat
         ∧ EvGoto job_url ∈ evs
         ∧ Forall (visits [job_url]) evs.
Proof.
  destruct (extract_job_details_no_pace w job_url s) as (evs & Htr & Hpace & _).
  destruct (extract_job_details_visits w job_url [job_url] ltac:(set_solver) s)
    as (evs' & Htr' & Hvis & _).
  destruct (extract_job_details_goes w job_url s) as (evs'' & Htr'').
  rewrite Htr in Htr', Htr''.
  apply app_inv_tail in Htr' as <-.
  assert (Hgo : evs ++ st_trace s
                = (evs'' ++ [EvGoto job_url; EvSay (MsgExtractBegin job_url)]) ++ st_trace s)
    by (by rewrite Htr'', <- app_assoc).
  apply app_inv_tail in Hgo.
  exists evs. split_and!; [done| | |].
  - apply (count_events_none _ (λ ev, negb (is_pace ev))); [|done].
    intros ev. by destruct (is_pace ev).
  - rewrite Hgo. set_solver.
  - eapply Forall_impl; [exact Hvis|]. by intros ev [_ ?].
Qed.

Lemma main_loop_rounds w total i links all_job_details s r s' :
  main_loop w total i links all_job_details s = (r, s') →
  ∃ dealt pending rounds unfinished,
    links = dealt ++ pending
    ∧ st_trace s' = unfinished ++ concat (reverse rounds) ++ st_trace s
    ∧ Forall2 round_of dealt rounds
    ∧ count_events is_pace unfinished = 0%nat
    ∧ (∀ url, EvGoto url ∈ unfinished → head pending = Some url)
    ∧ (is_Return r = true → pending = [] ∧ unfinished = []).
Proof.
  revert i all_job_details s.
  induction links as [|job_url rest IH]; intros i all_job_details s.
  - intros [= <- <-]. exists [], [], [], []. split_and!; try done.
    intros url Hin. by apply elem_of_nil in Hin.
  - cbn [main_loop]. rewrite bind_run, say_run, bind_run.
    set (s0 := note (MsgProgressItem i total job_url) s).
    destruct (extract_job_details_round w job_url s0) as (evs1 & Htr1 & Hc1 & Hgo1 & Hvis1).
    destruct (extract_job_details w job_url s0) as [[job|e] s1]; simpl in Htr1.
    2:{ intros [= <- <-].
        exists [], (job_url :: rest), [], (evs1 ++ [EvSay (MsgProgressItem i total job_url)]).
        split_and!; try done.
        - by rewrite Htr1, <- app_assoc.
        - counts_norm. by rewrite Hc1.
        - intros url [Hin|Hin]%elem_of_app.
          + apply (proj1 (Forall_forall _ _) Hvis1) in Hin. simpl in Hin.
            apply list_elem_of_singleton in Hin. by subst.
          + by apply list_elem_of_singleton in Hin. }
    rewrite bind_run.
    assert (∃ s2 evs2, (match job !! "title" with
                        | Some v => say (MsgProgressTitle v)
                        | None => mret ()
                        end) s1 = (Return tt, s2)
                       ∧ st_trace s2 = evs2 ++ st_trace s1
                       ∧ count_events is_pace evs2 = 0%nat
                       ∧ Forall (visits [job_url]) evs2)
      as (s2 & evs2 & -> & Htr2 & Hc2 & Hvis2).
    { destruct (job !! "title"); [eexists _, [_]|eexists _, []]; split_and!;
        try done; by repeat constructor. }
    rewrite bind_run.
    assert (∃ s3 evs3, (match job !! "error" with
                        | Some v => say (MsgProgressError v)
                        | None => mret ()
                        end) s2 = (Return tt, s3)
                       ∧ st_trace s3 = evs3 ++ st_trace s2
                       ∧ count_events is_pace evs3 = 0%nat
                       ∧ Forall (visits [job_url]) evs3)
      as (s3 & evs3 & -> & Htr3 & Hc3 & Hvis3).
    { destruct (job !! "error"); [eexists _, [_]|eexists _, []]; split_and!;
        try done; by repeat constructor. }
    rewrite bind_run. unfold sleep at 1. rewrite call_run.
    set (body := evs3 ++ evs2 ++ evs1 ++ [EvSay (MsgProgressItem i total job_url)]).
    assert (Hpre : st_trace (emit (EvSleep 2) s3) = (EvSleep 2 :: body) ++ st_trace s).
    { simpl. rewrite Htr3, Htr2, Htr1. unfold body. simpl. by rewrite <- !app_assoc. }
    assert (Hround : round_of job_url (EvSleep 2 :: body)).
    { exists body. unfold body. split_and!; [done| | |].
      - counts_norm. by rewrite Hc1, Hc2, Hc3.
      - set_solver.
      - rewrite !Forall_app. split_and!; try done. by repeat constructor. }
    destruct (w_sleep w (st_tick s3)) as [e|].
    { intros [= <- <-]. exists [job_url], rest, [EvSleep 2 :: body], [].
      split_and!; try done.
      - rewrite Hpre. simpl. by rewrite app_nil_r.
      - by repeat constructor.
      - intros url Hin. by apply elem_of_nil in Hin. }
    intros Hrun.
    destruct (IH _ _ _ Hrun) as (dealt & pending & rounds & unfinished
                                 & -> & Htr & Hrounds & Hc & Hnext & Hret).
    exists (job_url :: dealt), pending, ((EvSleep 2 :: body) :: rounds), unfinished.
    split_and!; try done.
    + rewrite Htr, Hpre, reverse_cons, concat_app. simpl.
      by rewrite app_nil_r, <- !app_assoc.
    + by constructor.
Qed.

(** X16. The loop of [main] pauses two seconds after every link it has
    dealt with, the last one included.  The events of the loop are, link
    by link in the order of the links, one round for each link dealt with:
    the visit of the page of that link and then, as the last event of the
    round, the one pause of the round.  What follows the last round holds
    no pause and visits no page but that of the next link: it is the
    round, cut short by an error, of that link.  When the loop returns,
    every link has been dealt with and nothing follows the last pause. *)
Theorem loop_pauses_after_each_link (w : world) (total i : nat) (links : list pystr)
    (all_job_details : list record) (s : state) :
  ∃ dealt pending rounds unfinished,
    links = dealt ++ pending
    ∧ st_trace (main_loop w total i links all_job_details s).2
      = unfinished ++ concat (reverse rounds) ++ st_trace s
    ∧ Forall2 round_of dealt rounds
    ∧ count_events is_pace unfinished = 0%nat
    ∧ (∀ url, EvGoto url ∈ unfinished → head pending = Some url)
    ∧ (is_Return (main_loop w total i links all_job_details s).1 = true →
       pending = [] ∧ unfinished = []).
Proof.
  destruct (main_loop w total i links all_job_details s) as [r s'] eqn:Hrun.
  apply (main_loop_rounds _ _ _ _ _ _ _ _ Hrun).
Qed.

Lemma loop_pauses_after_each_link_witness :
  ∃ rounds,
    st_trace (main_loop world_flaky 2 1 [url1; bad_url] [] init_state).2
    = concat (reverse rounds)
    ∧ Forall2 round_of [url1; bad_url] rounds.
Proof.
  destruct (loop_pauses_after_each_link world_flaky 2 1 [url1; bad_url] [] init_state)
    as (dealt & pending & rounds & unfinished & Hlinks & Htr & Hrounds & _ & _ & Hret).
  destruct Hret as [-> ->]; [vm_compute; reflexivity|].
  rewrite app_nil_r in Hlinks. subst dealt.
  exists rounds. split; [|exact Hrounds].
  rewrite Htr. simpl. by rewrite app_nil_r.
Defined.

(** X17. Whenever the loop of [main] returns, it returns the records it
    was given followed by one record per link, in the order of the links,
    each carrying its link as [url]. *)
Theorem loop_returns_one_record_per_link (w : world) (total i : nat) (links : list pystr)
    (all_job_details all' : list record) (s : state) :
  (main_loop w total i links all_job_details s).1 = Return all' →
  ∃ records, all' = all_job_details ++ records
             ∧ Forall2 (λ job_url job, job !! "url" = Some (VStr job_url)) links records.
Proof.
  destruct (main_loop w total i links all_job_details s) as [r s'] eqn:Hrun.
  destruct (main_loop_phase _ _ _ _ _ links _ _ _ (λ _ H, H) Hrun) as (_ & _ & _ & _ & _ & Hret).
  apply Hret.
Qed.

Lemma loop_returns_one_record_per_link_witness :
  ∃ all' records,
    (main_loop world_flaky 2 1 [url1; bad_url] [] init_state).1 = Return all'
    ∧ all' = [] ++ records
    ∧ Forall2 (λ job_url job, job !! "url" = Some (VStr job_url)) [url1; bad_url] records.
Proof.
  destruct (main_loop_records world_flaky 2 1 [url1; bad_url] [] init_state)
    as (records0 & Hrun & _).
  - reflexivity.
  - intros t url e. unfold world_flaky. simpl. case_decide; [|done]. by intros [= <-].
  - reflexivity.
  - exists ([] ++ records0).
    destruct (loop_returns_one_record_per_link world_flaky 2 1 [url1; bad_url] []
                ([] ++ records0) init_state Hrun) as (records & Heq & Hurls).
    by exists records.
Defined.



(** ** Closing twice *)

(** X19. [close] does not clear the handles of the crawler: whatever
    happens it leaves them as they are, so that closing a started crawler
    a second time closes the browser and stops the driver again. *)
Theorem close_keeps_handles (w : world) (s : state) :
  st_browser (close w s).2 = st_browser s
  ∧ st_playwright (close w s).2 = st_playwright s
  ∧ (st_browser s = true → st_playwright s = true → (∀ t, w_close w t = None) →
     (close w;; close w) s
     = (Return tt,
        State (4 + st_tick s)
          ([EvSay MsgBrowserClosed; EvPlaywrightStop; EvBrowserClose;
            EvSay MsgBrowserClosed; EvPlaywrightStop; EvBrowserClose] ++ st_trace s)
          true true)).
Proof.
  split_and!.
  - destruct (close w s) as [r s'] eqn:Hclose.
    by destruct (close_phase _ _ _ _ Hclose) as (_ & _ & _ & ? & _).
  - destruct (close w s) as [r s'] eqn:Hclose.
    by destruct (close_phase _ _ _ _ Hclose) as (_ & _ & _ & _ & ?).
  - intros Hb Hp Hclose. unfold close.
    repeat (rewrite bind_run; cbv beta;
            cbn [st_browser st_playwright st_tick st_trace emit note];
            rewrite ?Hb, ?Hp, ?call_run, ?Hclose, ?say_run).
    unfold emit, note. simpl. by rewrite Hb, Hp.
Qed.

Lemma close_keeps_handles_witness :
  (close world_healthy;; close world_healthy) (State 30 [] true true)
  = (Return tt,
     State 34
       [EvSay MsgBrowserClosed; EvPlaywrightStop; EvBrowserClose;
        EvSay MsgBrowserClosed; EvPlaywrightStop; EvBrowserClose]
       true true).
Proof.
  destruct (close_keeps_handles world_healthy (State 30 [] true true)) as (_ & _ & Htwice).
  apply Htwice; reflexivity.
Defined.
